(** * devwrap: lease state and Caddy route reconciliation

    A shallow embedding of the file-backed lease manager of devwrap
    (local_state.go), of the Caddy admin synchronisation
    (proxy_external.go) and of host validation (host.go), with the
    properties of the design document stated against it.

    Go values are modelled as follows.  [int] is [Z] (the code only compares
    and increments within 11000..19999, far from the 64-bit bounds).
    [string] is a sequence of bytes, i.e. Rocq's [string].  [map[string]App]
    is [gmap string App].  A decoded JSON value of Go type [any] is the
    inductive [any]; a Go [map[string]any] is an association list whose keys
    are pairwise distinct.  The file system, the process table, the loopback
    sockets and the Caddy admin endpoint are an explicit world and a record
    of oracles. *)

From Stdlib Require Import ZArith Lia QArith Ascii.
From stdpp Require Import gmap strings pretty sorting list.

Local Open Scope Z_scope.

(** ** The [strings] and [strconv] functions the code calls *)

Module Strings.

Definition isUpper (c : ascii) : bool :=
  let n := Ascii.N_of_ascii c in ((65 <=? n) && (n <=? 90))%N.

Definition lowerByte (c : ascii) : ascii :=
  if isUpper c then Ascii.ascii_of_N (Ascii.N_of_ascii c + 32) else c.

(** [strings.ToLower] on the bytes A..Z; other bytes are left as they
    are (the Unicode case mappings of non-ASCII runes are not modelled). *)
Fixpoint ToLower (s : string) : string :=
  match s with
  | EmptyString => EmptyString
  | String c r => String (lowerByte c) (ToLower r)
  end.

(** White space of [strings.TrimSpace] within ASCII: tab, line feed,
    vertical tab, form feed, carriage return, space. *)
Definition isSpace (c : ascii) : bool :=
  let n := Ascii.N_of_ascii c in (((9 <=? n) && (n <=? 13)) || (n =? 32))%N.

Fixpoint trimLeft (s : string) : string :=
  match s with
  | String c r => if isSpace c then trimLeft r else s
  | EmptyString => EmptyString
  end.

Definition TrimSpace (s : string) : string :=
  String.rev (trimLeft (String.rev (trimLeft s))).

Fixpoint startsWith (p s : string) : bool :=
  match p with
  | EmptyString => true
  | String a p' =>
      match s with
      | EmptyString => false
      | String b s' => Ascii.eqb a b && startsWith p' s'
      end
  end.

Definition HasPrefix (s p : string) : bool := startsWith p s.

Definition HasSuffix (s p : string) : bool :=
  startsWith (String.rev p) (String.rev s).

Definition TrimPrefix (s p : string) : string :=
  if HasPrefix s p
  then String.substring (String.length p) (String.length s - String.length p) s
  else s.

Fixpoint Contains (s sub : string) : bool :=
  startsWith sub s ||
  match s with
  | EmptyString => false
  | String _ r => Contains r sub
  end.

(** [strings.Split(s, sep)] for a one-byte separator: the pieces between
    the separators, always at least one piece. *)
Fixpoint splitGo (sep : ascii) (cur : string) (s : string) : list string :=
  match s with
  | EmptyString => [String.rev cur]
  | String c r =>
      if Ascii.eqb c sep then String.rev cur :: splitGo sep EmptyString r
      else splitGo sep (String c cur) r
  end.

Definition Split (s : string) (sep : ascii) : list string :=
  splitGo sep EmptyString s.

(** [strings.IndexByte]: position of the first occurrence, [None] for
    Go's -1. *)
Fixpoint IndexByte (s : string) (c : ascii) : option nat :=
  match s with
  | EmptyString => None
  | String d r => if Ascii.eqb d c then Some O else S <$> IndexByte r c
  end.

Definition digitValue (c : ascii) : option Z :=
  let n := Ascii.N_of_ascii c in
  if ((48 <=? n) && (n <=? 57))%N then Some (Z.of_N n - 48) else None.

Fixpoint digitsValue (acc : Z) (s : string) : option Z :=
  match s with
  | EmptyString => Some acc
  | String c r =>
      match digitValue c with
      | Some d => digitsValue (acc * 10 + d) r
      | None => None
      end
  end.

Definition maxInt : Z := 2 ^ 63 - 1.
Definition minInt : Z := - 2 ^ 63.

(** The value [strconv.Atoi] returns, its error dropped (every caller
    writes [n, _ := strconv.Atoi(..)]): 0 on a syntax error, the clamped
    value on a range error. *)
Definition Atoi (s : string) : Z :=
  let '(neg, ds) :=
    match s with
    | String c r =>
        if Ascii.eqb c "-" then (true, r)
        else if Ascii.eqb c "+" then (false, r)
        else (false, s)
    | EmptyString => (false, s)
    end in
  match ds with
  | EmptyString => 0
  | _ =>
      match digitsValue 0 ds with
      | None => 0
      | Some v =>
          let n := if neg then - v else v in
          Z.max minInt (Z.min maxInt n)
      end
  end.

(** [strconv.Itoa], and [%d] of [fmt.Sprintf]. *)
Definition Itoa (n : Z) : string := pretty n.

End Strings.

(** ** Go values decoded from JSON *)

(** A value of Go type [any] as [encoding/json] produces it: [nil], [bool],
    [float64], [string], [[]any], [map[string]any].  No function of the
    repository looks inside a number, so a [float64] is carried as a
    rational. *)
#[local] Set Warnings "-register-all".
Inductive any : Type :=
  | ANil
  | ABool (b : bool)
  | ANum (q : Q)
  | AStr (s : string)
  | AArr (l : list any)
  | AMap (m : list (string * any)).

(** [m[k]] on a [map[string]any]: value and presence. *)
Fixpoint mapIndex (m : list (string * any)) (k : string) : option any :=
  match m with
  | [] => None
  | (k', v) :: r => if String.eqb k' k then Some v else mapIndex r k
  end.

(** The type assertions [v.(string)], [v.([]any)], [v.(map[string]any)]. *)
Definition asString (v : option any) : option string :=
  match v with Some (AStr s) => Some s | _ => None end.

Definition asSlice (v : option any) : option (list any) :=
  match v with Some (AArr l) => Some l | _ => None end.

Definition asMap (v : option any) : option (list (string * any)) :=
  match v with Some (AMap m) => Some m | _ => None end.

(** ** Data model (daemon.go, client.go) *)

Record App : Type := mkApp {
  Name : string;
  Host : string;
  Port : Z;
  PID : Z;
  StartedAt : string
}.

Record daemonState : Type := mkState {
  Version : Z;
  CaddySource : string;
  Root : bool;
  HTTPPort : Z;
  HTTPSPort : Z;
  Apps : gmap string App
}.

Record Lease : Type := mkLease {
  lease_Name : string;
  lease_Host : string;
  lease_Port : Z;
  lease_HTTPURL : string;
  lease_HTTPSURL : string;
  lease_Trusted : bool
}.

Record ProxyStatus : Type := mkStatus {
  st_Running : bool;
  st_CaddySource : string;
  st_Root : bool;
  st_HTTPPort : Z;
  st_HTTPSPort : Z;
  st_Trusted : bool;
  st_PID : Z;
  st_Apps : list App
}.

(** ** Route reconciliation (proxy_external.go) *)

(** [sort.Strings]: ascending in the byte-wise order of Go strings. *)
Definition sortStrings (l : list string) : list string :=
  merge_sort String.le l.

(** The keys of a Go map, as the loop [for name := range apps] collects
    them before sorting. *)
Definition mapKeys {A} (m : gmap string A) : list string :=
  (map_to_list m).*1.

(** The route built in the body of the loop of [makeDevwrapRoutes]. *)
Definition devwrapRoute (app : App) : any :=
  AMap [ ("@id", AStr ("devwrap-" +:+ Name app));
         ("match", AArr [AMap [("host", AArr [AStr (Host app)])]]);
         ("handle", AArr [AMap [
            ("handler", AStr "reverse_proxy");
            ("upstreams",
             AArr [AMap [("dial", AStr ("127.0.0.1:" +:+ Strings.Itoa (Port app)))]])
          ]]) ].

(** [apps[name]] yields the zero [App] for an absent key. *)
Definition zeroApp : App := mkApp "" "" 0 0 "".

Definition makeDevwrapRoutes (apps : gmap string App) : list any :=
  let names := sortStrings (mapKeys apps) in
  (λ name, devwrapRoute (default zeroApp (apps !! name))) <$> names.

(** The test of the first loop of [mergeExternalRoutes]: the route is a
    map whose ["@id"] is a string that starts with [devwrap-]. *)
Definition isDevwrapRoute (route : any) : bool :=
  match route with
  | AMap routeMap =>
      let id := default "" (asString (mapIndex routeMap "@id")) in
      Strings.HasPrefix id "devwrap-"
  | _ => false
  end.

Fixpoint keepForeign (existing : list any) (out : list any) : list any :=
  match existing with
  | [] => out
  | route :: rest =>
      match route with
      | AMap routeMap =>
          let id := default "" (asString (mapIndex routeMap "@id")) in
          if Strings.HasPrefix id "devwrap-" then keepForeign rest out
          else keepForeign rest (out ++ [route])
      | _ => keepForeign rest (out ++ [route])
      end
  end.

Fixpoint appendAll (routes : list any) (out : list any) : list any :=
  match routes with
  | [] => out
  | route :: rest => appendAll rest (out ++ [route])
  end.

Definition mergeExternalRoutes
    (server : list (string * any)) (devwrapRoutes : list any) : list any :=
  let existing := default [] (asSlice (mapIndex server "routes")) in
  appendAll devwrapRoutes (keepForeign existing []).

(** ** Errors *)

(** One constructor per error the modelled functions create or pass on;
    the payload is the text Go formats into the message. *)
Inductive error : Type :=
  | ErrRuntimeDir
  | ErrLock
  | ErrReadState
  | ErrWriteState
  | ErrRenameState
  | ErrTransport
  | ErrDecode
  | ErrAdminQuery (body : string)
  | ErrNoServers
  | ErrServerPorts
  | ErrRoutesUpdate (body : string)
  | ErrTLSQuery (body : string)
  | ErrTLSUpdate (body : string)
  | ErrTLSCreate (body : string)
  | ErrNoFreePorts
  | ErrHost (msg : string)
  | ErrName (msg : string).

(** ** Host names (host.go) *)

Definition firstByte (s : string) : option ascii := String.get 0 s.

Definition lastByte (s : string) : option ascii :=
  String.get (String.length s - 1) s.

Definition isDash (c : option ascii) : bool :=
  match c with Some c => Ascii.eqb c "-" | None => false end.

(** The test of the inner loop of [normalizeHost]. *)
Definition hostRune (r : ascii) : bool :=
  let n := Ascii.N_of_ascii r in
  (((97 <=? n) && (n <=? 122)) || ((48 <=? n) && (n <=? 57)) || (n =? 45))%N.

Fixpoint allRunes (p : ascii → bool) (s : string) : bool :=
  match s with
  | EmptyString => true
  | String r rest => if p r then allRunes p rest else false
  end.

Fixpoint checkLabels (labels : list string) : option error :=
  match labels with
  | [] => None
  | label :: rest =>
      if String.eqb label "" then Some (ErrHost "host format is invalid")
      else if isDash (firstByte label) || isDash (lastByte label)
      then Some (ErrHost "host labels cannot start or end with '-'")
      else if allRunes hostRune label then checkLabels rest
      else Some (ErrHost "host can use lowercase letters, numbers, dots, and dashes")
  end.

Definition normalizeHost (raw : string) : error + string :=
  let host := Strings.ToLower (Strings.TrimSpace raw) in
  if String.eqb host "" then inl (ErrHost "host cannot be empty")
  else if Strings.Contains host "://"
  then inl (ErrHost "host must be a hostname without scheme")
  else if Strings.Contains host "/" then inl (ErrHost "host must not include a path")
  else if Strings.Contains host ":" then inl (ErrHost "host must not include a port")
  else if Strings.HasPrefix host "." || Strings.HasSuffix host "."
          || Strings.Contains host ".."
  then inl (ErrHost "host format is invalid")
  else match checkLabels (Strings.Split host ".") with
       | Some err => inl err
       | None => inr host
       end.

Definition hostForApp (name customHost : string) : error + string :=
  if String.eqb customHost "" then inr (name +:+ ".localhost")
  else match normalizeHost customHost with
       | inl err => inl err
       | inr host => inr host
       end.

(** cli.go *)
Definition nameRune (r : ascii) : bool := hostRune r.

Definition validateName (name : string) : error + unit :=
  if String.eqb name "" then inl (ErrName "app name cannot be empty")
  else if negb (allRunes nameRune name)
  then inl (ErrName "app name must use lowercase letters, numbers, or dashes")
  else if isDash (firstByte name) || isDash (lastByte name)
  then inl (ErrName "app name cannot start or end with a dash")
  else inr tt.

(** ** TLS subjects and the automation policy (proxy_external.go) *)

Definition devwrapInternalTLSPolicyID : string := "devwrap-internal-policy".

Definition tlsSubjectForHost (host : string) : string :=
  let h := Strings.ToLower (Strings.TrimSpace host) in
  match Strings.IndexByte h "." with
  | Some i =>
      if ((0 <? i) && (i <? String.length h - 1))%nat
      then "*." +:+ String.substring (i + 1) (String.length h - (i + 1)) h
      else h
  | None => h
  end.

(** The subject set of [syncDevwrapInternalTLSPolicy], then its sorted
    slice. *)
Definition tlsSubjects (apps : gmap string App) : list string :=
  let subjectSet : gset string :=
    list_to_set ((λ app, tlsSubjectForHost (Host app)) <$> (map_to_list apps).*2) in
  sortStrings (elements subjectSet).

Definition devwrapPolicy (hosts : list string) : any :=
  AMap [ ("@id", AStr devwrapInternalTLSPolicyID);
         ("subjects", AArr (AStr <$> hosts));
         ("issuers", AArr [AMap [("module", AStr "internal")]]) ].

Fixpoint keepForeignPolicies (existing : list any) (out : list any) : list any :=
  match existing with
  | [] => out
  | policyAny :: rest =>
      match policyAny with
      | AMap policy =>
          let id := default "" (asString (mapIndex policy "@id")) in
          if String.eqb id devwrapInternalTLSPolicyID
          then keepForeignPolicies rest out
          else keepForeignPolicies rest (out ++ [policyAny])
      | _ => keepForeignPolicies rest (out ++ [policyAny])
      end
  end.

Definition mergeDevwrapInternalTLSPolicy
    (existing : list any) (hosts : list string) : list any :=
  let out := if (0 <? length hosts)%nat then [devwrapPolicy hosts] else [] in
  keepForeignPolicies existing out.

(** ** Server discovery (proxy_external.go) *)

Definition parseListenPort (s : string) : Z :=
  if Strings.HasPrefix s ":" then Strings.Atoi (Strings.TrimPrefix s ":")
  else match last (Strings.Split s ":") with
       | Some part => Strings.Atoi part
       | None => 0
       end.

Definition firstListenPort (server : list (string * any)) : Z :=
  match mapIndex server "listen" with
  | Some (AArr (AStr s :: _)) =>
      if Strings.HasPrefix s ":" then Strings.Atoi (Strings.TrimPrefix s ":")
      else match last (Strings.Split s ":") with
           | Some part => Strings.Atoi part
           | None => 0
           end
  | _ => 0
  end.

Fixpoint anyListens (listen : list any) (want : Z) : bool :=
  match listen with
  | [] => false
  | AStr s :: rest =>
      if parseListenPort s =? want then true else anyListens rest want
  | _ :: rest => anyListens rest want
  end.

Definition hasListenPort (server : list (string * any)) (want : Z) : bool :=
  match mapIndex server "listen" with
  | Some (AArr listen) => anyListens listen want
  | _ => false
  end.

Definition isTLSServer (server : list (string * any)) : bool :=
  match mapIndex server "tls_connection_policies" with
  | Some (AArr arr) => (0 <? length arr)%nat
  | _ => false
  end.

(** The loop of [parseExternalServers] over the sorted names; the
    accumulator is (httpName, httpsName, httpPort, httpsPort). *)
Fixpoint classifyServers
    (servers : gmap string (list (string * any))) (names : list string)
    (acc : string * string * Z * Z) : string * string * Z * Z :=
  match names with
  | [] => acc
  | name :: rest =>
      let '(httpName, httpsName, httpPort, httpsPort) := acc in
      let server := default [] (servers !! name) in
      let port := firstListenPort server in
      if isTLSServer server || hasListenPort server 443 then
        if String.eqb httpsName ""
        then classifyServers servers rest
               (httpName, name, httpPort, if 0 <? port then port else httpsPort)
        else classifyServers servers rest acc
      else if String.eqb httpName ""
      then classifyServers servers rest
             (name, httpsName, (if 0 <? port then port else httpPort), httpsPort)
      else classifyServers servers rest acc
  end.

(** Result: (httpPort, httpsPort, httpName, httpsName). *)
Definition parseExternalServers (servers : gmap string (list (string * any)))
    : error + (Z * Z * string * string) :=
  match servers !! "devwrap-http" with
  | Some server =>
      let httpPort := firstListenPort server in
      let httpPort := if httpPort =? 0 then 80 else httpPort in
      match servers !! "devwrap-https" with
      | Some httpsServer =>
          let p := firstListenPort httpsServer in
          inr (httpPort, (if 0 <? p then p else 443), "devwrap-http", "devwrap-https")
      | None => inr (httpPort, httpPort, "devwrap-http", "")
      end
  | None =>
      let names := sortStrings (mapKeys servers) in
      let '(httpName, httpsName, httpPort, httpsPort) :=
        classifyServers servers names ("", "", 80, 443) in
      if String.eqb httpName "" && String.eqb httpsName "" then inl ErrServerPorts
      else
        let httpName' := if String.eqb httpName "" then httpsName else httpName in
        let httpsName' := if String.eqb httpsName "" then httpName' else httpsName in
        inr (httpPort, httpsPort, httpName', httpsName')
  end.

(** ** The world: state file, admin endpoint, processes, sockets *)

Inductive Method : Type := GET | PATCH | PUT | DELETE.

(** A request sent to the admin endpoint at 127.0.0.1:2019; [payload] is
    the Go value that [adminDoJSON] marshals into the body. *)
Record Request : Type := mkReq {
  method : Method;
  path : string;
  payload : option any
}.

(** What the HTTP client hands back: an error, or a response with its
    status, its body as text and the first JSON value of the body
    ([None] when the body does not decode). *)
Inductive Response : Type :=
  | TransportError
  | HTTPResponse (status : Z) (text : string) (json : option any).

(** The members of a state document that [json.Unmarshal] would store into
    a [daemonState]; [None] is a member that is absent or [null].  Members
    the struct has no field for are in [doc_other]. *)
Record stateDoc : Type := mkDoc {
  doc_version : option Z;
  doc_caddy_source : option string;
  doc_root : option bool;
  doc_http_port : option Z;
  doc_https_port : option Z;
  doc_apps : option (gmap string App);
  doc_other : list (string * any)
}.

(** The content of state.json (or of state.json.tmp).  [Garbled] is bytes
    that are not a JSON value: [json.Unmarshal] checks the syntax before it
    stores anything.  Documents that are JSON but carry a member of the
    wrong type are outside this model: for them [json.Unmarshal] stores the
    members that do decode and reports an error, and [loadLocalState]
    returns that state as it is, its source tag not brought up to date.
    Nothing below relies on the source tag of a loaded state. *)
Inductive fileContent : Type :=
  | Absent
  | Unreadable
  | Garbled
  | Document (d : stateDoc).

Record World : Type := mkWorld {
  stateFile : fileContent;
  stateTmp : fileContent;
  adminLog : list Request
}.

(** [os.WriteFile] on the temporary file: written, not opened, or failed
    half way. *)
Inductive writeOutcome : Type := WriteDone | WriteRefused | WriteTorn.

(** The surroundings of one invocation, as oracles:
    - [runtimeDirOK]: [runtimeDir] finds and creates the state directory;
    - [flockOK]: the lock on state.lock is granted;
    - [processExists pid]: [syscall.Kill(pid, 0)] returns no error;
    - [listenOK port]: [net.Listen] on 127.0.0.1:port succeeds;
    - [caddy log req]: the answer of the admin endpoint to [req] after the
      requests of [log], oldest first;
    - [nowRFC3339]: [time.Now()] in UTC, formatted;
    - [tmpWrite], [renameOK]: the outcome of writing state.json.tmp and of
      renaming it over state.json;
    - [daemonPIDFile]: the PID read from daemon.pid, if it reads and parses;
    - [certVerifies body]: the root certificate in [body] decodes and
      verifies against the system trust store. *)
Record Env : Type := mkEnv {
  runtimeDirOK : bool;
  flockOK : bool;
  processExists : Z → bool;
  listenOK : Z → bool;
  caddy : list Request → Request → Response;
  nowRFC3339 : string;
  tmpWrite : writeOutcome;
  renameOK : bool;
  daemonPIDFile : option Z;
  certVerifies : option any → bool
}.

(** State and error monad over the world. *)
Definition M (A : Type) : Type := World → (error + A) * World.

Definition ret {A} (a : A) : M A := λ w, (inr a, w).

Definition fail {A} (e : error) : M A := λ w, (inl e, w).

Definition bind {A B} (m : M A) (k : A → M B) : M B :=
  λ w, match m w with
       | (inl e, w') => (inl e, w')
       | (inr a, w') => k a w'
       end.

(** [_ = f()] and [_, _, _ = f()]: run for the effects, drop the error. *)
Definition discard {A} (m : M A) : M unit :=
  λ w, (inr tt, (m w).2).

Declare Scope go_scope.
Delimit Scope go_scope with go.
Notation "'let*' x ':=' m 'in' k" := (bind m (λ x, k))
  (at level 10, x pattern, m at level 200, k at level 200, only parsing) : go_scope.
Local Open Scope go_scope.

Definition lift {A} (r : error + A) : M A := λ w, (r, w).

Section Invocation.

Variable E : Env.

(** main.go *)

Definition processAlive (pid : Z) : bool :=
  if pid <=? 0 then false else processExists E pid.

Definition withStateLock {A} (fn : M A) : M A :=
  if negb (runtimeDirOK E) then fail ErrRuntimeDir
  else if negb (flockOK E) then fail ErrLock
  else fn.

Definition readDaemonPID : error + Z :=
  match daemonPIDFile E with
  | Some p => inr p
  | None => inl ErrReadState
  end.

(** admin_client.go *)

Definition send (req : Request) : M Response :=
  λ w, (inr (caddy E (adminLog w) req),
        mkWorld (stateFile w) (stateTmp w) (adminLog w ++ [req])).

Definition adminGet (path : string) : M Response := send (mkReq GET path None).

Definition adminDoJSON (method : Method) (path : string) (payload : any)
    : M Response :=
  send (mkReq method path (Some payload)).

(** proxy_external.go *)

Definition collectServers (raw : list (string * any))
    : gmap string (list (string * any)) :=
  list_to_map (omap (λ kv, match kv.2 with
                           | AMap m => Some (kv.1, m)
                           | _ => None
                           end) raw).

Definition fetchExternalServers : M (gmap string (list (string * any))) :=
  let* res := adminGet "/config/apps/http/servers" in
  match res with
  | TransportError => fail ErrTransport
  | HTTPResponse status text json =>
      if 300 <=? status then fail (ErrAdminQuery (Strings.TrimSpace text))
      else match json with
           | Some (AMap raw) =>
               let servers := collectServers raw in
               if bool_decide (size servers = 0%nat) then fail ErrNoServers
               else ret servers
           | Some ANil => fail ErrNoServers
           | _ => fail ErrDecode
           end
  end.

Definition routesPath (serverName : string) : string :=
  "/config/apps/http/servers/" +:+ serverName +:+ "/routes".

Definition putExternalRoutes (serverName : string) (routes : list any) : M unit :=
  let path := routesPath serverName in
  let* res := adminDoJSON PATCH path (AArr routes) in
  match res with
  | TransportError => fail ErrTransport
  | HTTPResponse status text _ =>
      if 300 <=? status then
        let body := Strings.TrimSpace text in
        let* _ := discard (send (mkReq DELETE path None)) in
        let* createRes := send (mkReq PUT path (Some (AArr routes))) in
        match createRes with
        | HTTPResponse createStatus createText _ =>
            if createStatus <? 300 then ret tt
            else fail (ErrRoutesUpdate (Strings.TrimSpace createText))
        | TransportError => fail (ErrRoutesUpdate body)
        end
      else ret tt
  end.

Definition policiesPath : string := "/config/apps/tls/automation/policies".

(** Result: (policies, found). *)
Definition fetchTLSAutomationPolicies : M (list any * bool) :=
  let* res := adminGet policiesPath in
  match res with
  | TransportError => fail ErrTransport
  | HTTPResponse status text json =>
      if status =? 404 then ret ([], false)
      else if 300 <=? status then fail (ErrTLSQuery (Strings.TrimSpace text))
      else match json with
           | Some (AArr policies) => ret (policies, true)
           | Some ANil => ret ([], true)
           | _ => fail ErrDecode
           end
  end.

Definition putTLSAutomationPolicies (policies : list any) : M unit :=
  let* res := adminDoJSON PATCH policiesPath (AArr policies) in
  match res with
  | TransportError => fail ErrTransport
  | HTTPResponse status text _ =>
      if 300 <=? status then
        let body := Strings.TrimSpace text in
        let* _ := discard (send (mkReq DELETE policiesPath None)) in
        let* createRes := send (mkReq PUT policiesPath (Some (AArr policies))) in
        match createRes with
        | HTTPResponse createStatus createText _ =>
            if createStatus <? 300 then ret tt
            else fail (ErrTLSUpdate (Strings.TrimSpace createText))
        | TransportError => fail (ErrTLSUpdate body)
        end
      else ret tt
  end.

Definition createTLSAppWithPolicies (policies : list any) : M unit :=
  let* res := adminDoJSON PUT "/config/apps/tls"
                (AMap [("automation", AMap [("policies", AArr policies)])]) in
  match res with
  | TransportError => fail ErrTransport
  | HTTPResponse status text _ =>
      if 300 <=? status then fail (ErrTLSCreate (Strings.TrimSpace text))
      else ret tt
  end.

Definition syncDevwrapInternalTLSPolicy (apps : gmap string App) : M unit :=
  let subjects := tlsSubjects apps in
  let* (policies, found) := fetchTLSAutomationPolicies in
  let merged := mergeDevwrapInternalTLSPolicy policies subjects in
  if (found : bool) then putTLSAutomationPolicies merged
  else if (length subjects =? 0)%nat then ret tt
  else createTLSAppWithPolicies merged.

(** Result: (httpPort, httpsPort). *)
Definition applyRoutesViaAdmin (apps : gmap string App) : M (Z * Z) :=
  let* servers := fetchExternalServers in
  let* (httpPort, httpsPort, httpName, httpsName) := lift (parseExternalServers servers) in
  let devwrapRoutes := makeDevwrapRoutes apps in
  let httpRoutes :=
    mergeExternalRoutes (default [] (servers !! httpName)) devwrapRoutes in
  let* _ := putExternalRoutes httpName httpRoutes in
  let* _ := (if negb (String.eqb httpsName "") then
     let httpsRoutes :=
       mergeExternalRoutes (default [] (servers !! httpsName)) devwrapRoutes in
     putExternalRoutes httpsName httpsRoutes
   else ret tt) in
  let* _ := syncDevwrapInternalTLSPolicy apps in
  ret (httpPort, httpsPort).

(** Result: (Available, HTTPPort, HTTPSPort, Managed). *)
Definition inspectExternalCaddy : M (bool * Z * Z * bool) :=
  let* servers := fetchExternalServers in
  let* (httpPort, httpsPort, _, _) := lift (parseExternalServers servers) in
  ret (true, httpPort, httpsPort, bool_decide (is_Some (servers !! "devwrap-http"))).

(** daemon.go: [rootCertFromAdmin("local")] followed by [cert.Verify];
    decoding and verifying the certificate is the oracle [certVerifies]. *)
Definition isCertTrusted : M bool :=
  let* res := adminGet "/pki/ca/local" in
  match res with
  | TransportError => ret false
  | HTTPResponse status _ json =>
      if 300 <=? status then ret false else ret (certVerifies E json)
  end.


(** local_state.go: the state store *)

Definition defaultState : daemonState :=
  mkState 1 "unmanaged" false 80 443 ∅.

(** [json.Unmarshal(b, &state)] for a document [d]: a member that is
    present overwrites its field, decoded apps are stored into the map
    the field already holds, anything else is ignored. *)
Definition unmarshalState (d : stateDoc) (state : daemonState) : daemonState :=
  mkState (default (Version state) (doc_version d))
          (default (CaddySource state) (doc_caddy_source d))
          (default (Root state) (doc_root d))
          (default (HTTPPort state) (doc_http_port d))
          (default (HTTPSPort state) (doc_https_port d))
          (match doc_apps d with
           | Some apps => apps ∪ Apps state
           | None => Apps state
           end).

(** [json.MarshalIndent(state, ..)]: every field is written. *)
Definition marshalState (state : daemonState) : stateDoc :=
  mkDoc (Some (Version state)) (Some (CaddySource state)) (Some (Root state))
        (Some (HTTPPort state)) (Some (HTTPSPort state)) (Some (Apps state)) [].

Definition statePath : M unit :=
  if runtimeDirOK E then ret tt else fail ErrRuntimeDir.

Definition withCaddySource (state : daemonState) (src : string) : daemonState :=
  mkState (Version state) src (Root state) (HTTPPort state) (HTTPSPort state)
          (Apps state).

Definition loadLocalState : M daemonState :=
  let state := defaultState in
  let* _ := statePath in
  λ w,
    match stateFile w with
    | Unreadable => (inl ErrReadState, w)
    | Absent => (inr state, w)
    | Garbled => (inr state, w)
    | Document d =>
        let state := unmarshalState d state in
        let state :=
          if String.eqb (CaddySource state) ""
             || String.eqb (CaddySource state) "existing"
          then withCaddySource state "unmanaged" else state in
        let state :=
          if String.eqb (CaddySource state) "spawned"
          then withCaddySource state "managed" else state in
        (inr state, w)
    end.

(** [os.WriteFile(tmp, ..)] then [os.Rename(tmp, path)]. *)
Definition saveLocalState (state : daemonState) : M unit :=
  let* _ := statePath in
  let b := Document (marshalState state) in
  λ w,
    match tmpWrite E with
    | WriteRefused => (inl ErrWriteState, w)
    | WriteTorn => (inl ErrWriteState, mkWorld (stateFile w) Garbled (adminLog w))
    | WriteDone =>
        if renameOK E then (inr tt, mkWorld b Absent (adminLog w))
        else (inl ErrRenameState, mkWorld (stateFile w) b (adminLog w))
    end.

(** local_state.go: ports *)

Definition usedPorts (apps : gmap string App) : gset Z :=
  list_to_set (Port <$> (map_to_list apps).*2).

(** The loop [for port := 11000; port <= 19999; port++]; [fuel] bounds
    the number of iterations still to run. *)
Fixpoint scanPorts (used : gset Z) (fuel : nat) (port : Z) : option Z :=
  if port <=? 19999 then
    match fuel with
    | O => None
    | S fuel' =>
        if bool_decide (port ∈ used) then scanPorts used fuel' (port + 1)
        else if listenOK E port then Some port
        else scanPorts used fuel' (port + 1)
    end
  else None.

Definition allocatePortFromApps (apps : gmap string App) : error + Z :=
  match scanPorts (usedPorts apps) (Z.to_nat 9000) 11000 with
  | Some port => inr port
  | None => inl ErrNoFreePorts
  end.

Definition leaseFromAppAndPorts (app : App) (httpPort httpsPort : Z) : M Lease :=
  let httpURL := "http://" +:+ Host app in
  let httpsURL := "https://" +:+ Host app in
  let httpURL :=
    if negb (httpPort =? 80) then httpURL +:+ ":" +:+ Strings.Itoa httpPort
    else httpURL in
  let httpsURL :=
    if negb (httpsPort =? 443) then httpsURL +:+ ":" +:+ Strings.Itoa httpsPort
    else httpsURL in
  let* trusted := isCertTrusted in
  ret (mkLease (Name app) (Host app) (Port app) httpURL httpsURL trusted).

(** local_state.go: the lease manager *)

(** The loop that deletes every app whose process is gone. *)
Definition evictDead (apps : gmap string App) : gmap string App :=
  filter (λ kv, processAlive (PID kv.2) = true) apps.

Definition requestLeaseDirect (name : string) (pid : Z) : M Lease :=
  withStateLock (
    let* state := loadLocalState in
    let apps := evictDead (Apps state) in
    let* app :=
      match apps !! name with
      | Some app =>
          ret (mkApp (Name app) (Host app) (Port app) pid (nowRFC3339 E))
      | None =>
          let* port := lift (allocatePortFromApps apps) in
          ret (mkApp name (name +:+ ".localhost") port pid (nowRFC3339 E))
      end in
    let apps := <[name := app]> apps in
    let* (httpPort, httpsPort) := applyRoutesViaAdmin apps in
    let state :=
      mkState 1 "unmanaged" ((httpPort =? 80) && (httpsPort =? 443))
              httpPort httpsPort apps in
    let* _ := saveLocalState state in
    leaseFromAppAndPorts app httpPort httpsPort).

Definition withApps (state : daemonState) (apps : gmap string App) : daemonState :=
  mkState (Version state) (CaddySource state) (Root state) (HTTPPort state)
          (HTTPSPort state) apps.

Definition releaseLeaseDirect (name : string) (pid : Z) : M unit :=
  discard (withStateLock (
    let* state := loadLocalState in
    match Apps state !! name with
    | None => ret tt
    | Some app =>
        if (0 <? pid) && negb (PID app =? pid) then ret tt
        else
          let state := withApps state (delete name (Apps state)) in
          let* _ := applyRoutesViaAdmin (Apps state) in
          saveLocalState state
    end)).

Definition removeDirect (name : string) : M unit :=
  withStateLock (
    let* state := loadLocalState in
    match Apps state !! name with
    | None => ret tt
    | Some _ =>
        let state := withApps state (delete name (Apps state)) in
        let* _ := applyRoutesViaAdmin (Apps state) in
        saveLocalState state
    end).

(** [sort.Slice(apps, ..)] by [Name]. *)
Definition sortApps (apps : list App) : list App :=
  merge_sort (λ a b, String.le (Name a) (Name b)) apps.

Definition localStatusFromFiles : M ProxyStatus :=
  withStateLock (
    let* (_, infoHTTPPort, infoHTTPSPort, infoManaged) := inspectExternalCaddy in
    let* state := loadLocalState in
    let changed :=
      existsb (λ kv, negb (processAlive (PID kv.2))) (map_to_list (Apps state)) in
    let state := withApps state (evictDead (Apps state)) in
    let* _ :=
      (if changed then
         let* _ := discard (applyRoutesViaAdmin (Apps state)) in
         discard (saveLocalState state)
       else ret tt) in
    let apps := sortApps (map_to_list (Apps state)).*2 in
    let source := if infoManaged then "managed" else "unmanaged" in
    let pid :=
      if infoManaged then
        match readDaemonPID with
        | inr p => if processAlive p then p else 0
        | inl _ => 0
        end
      else 0 in
    let* trusted := isCertTrusted in
    ret (mkStatus true source ((infoHTTPPort =? 80) && (infoHTTPSPort =? 443))
                  infoHTTPPort infoHTTPSPort trusted pid apps)).

(** client.go.  [acquireLease] hands [host] to [requestLeaseDirect],
    whose declaration in local_state.go has the parameters [name] and
    [pid] only: the host has no parameter to arrive in. *)
Definition acquireLease (name host : string) (pid : Z) : M Lease :=
  requestLeaseDirect name pid.

Definition releaseLeaseSelected (name : string) (pid : Z) : M unit :=
  releaseLeaseDirect name pid.

(** cli.go: [runApp] up to the lease it acquires; [pid] is [os.Getpid()].
    Making the control plane reachable (commands.go: a health probe, and
    the start of the daemon process when it fails) is taken as given. *)
Variable ensureCaddyOrDaemon : bool → M unit.

Definition runApp (name host : string) (privileged : bool) (pid : Z) : M Lease :=
  let* _ := lift (validateName name) in
  let* resolvedHost := lift (hostForApp name host) in
  let* _ := ensureCaddyOrDaemon privileged in
  acquireLease name resolvedHost pid.

End Invocation.

(** ** Further functions of the repository *)

(** [strings.ReplaceAll(s, old, new)] for a non-empty [old]: the
    occurrences of [old] are replaced from left to right, without overlap.
    [skip] counts the bytes of an occurrence still to pass over. *)
Fixpoint replaceGo (old new : string) (skip : nat) (s : string) : string :=
  match s with
  | EmptyString => EmptyString
  | String c r =>
      match skip with
      | S k => replaceGo old new k r
      | O =>
          if Strings.startsWith old s
          then new +:+ replaceGo old new (String.length old - 1) r
          else String c (replaceGo old new 0 r)
      end
  end.

Definition ReplaceAll (s old new : string) : string := replaceGo old new 0 s.

(** commands.go *)

Definition applyTemplates (args : list string) (port : Z) : list string :=
  let portValue := Strings.Itoa port in
  (λ arg, ReplaceAll arg "@PORT" portValue) <$> args.

Definition portSuffix (port : Z) : string :=
  if port =? 443 then "" else ":" +:+ Strings.Itoa port.

(** [sortedApps]: a copy of the slice, sorted by [Name]. *)
Definition sortedApps (apps : list App) : list App :=
  merge_sort (λ a b, String.le (Name a) (Name b)) apps.

(** daemon.go *)

Definition HTTPSURL (a : App) (httpsPort : Z) : string :=
  if httpsPort =? 443 then "https://" +:+ Host a
  else "https://" +:+ Host a +:+ ":" +:+ Strings.Itoa httpsPort.

(** [portFree port] stands for [isPortAvailable(port)]: a listener binds
    to the port on all interfaces. *)
Definition portsAvailable (portFree : Z → bool) (httpPort httpsPort : Z) : bool :=
  portFree httpPort && portFree httpsPort.

(** Result: (httpPort, httpsPort, privileged ports), or the text of the
    error. *)
Definition chooseProxyPorts (portFree : Z → bool) (isRoot : bool)
    : string + (Z * Z * bool) :=
  if isRoot then
    if portsAvailable portFree 80 443 then inr (80, 443, true)
    else if portsAvailable portFree 8080 8443 then inr (8080, 8443, false)
    else inl "no available proxy ports: 80/443 and 8080/8443 are in use"
  else
    if portsAvailable portFree 8080 8443 then inr (8080, 8443, false)
    else if portsAvailable portFree 9080 9443 then inr (9080, 9443, false)
    else inl "no available proxy ports: 8080/8443 and 9080/9443 are in use".

(** [stopSpawnedCaddy]; [stopEmbeddedCaddy] is the outcome of
    [caddy.Stop()]. *)
Definition stopSpawnedCaddy (E : Env) (stopEmbeddedCaddy : option error) : M unit :=
  match stopEmbeddedCaddy with
  | Some err => fail err
  | None =>
      withStateLock E (
        let* state := loadLocalState E in
        saveLocalState E (withCaddySource state "unmanaged"))
  end.

(** proxy_caddy.go: the HTTP servers of the configuration that
    [startEmbeddedCaddy] loads, as the admin endpoint hands them back. *)
Definition embeddedServers (httpPort httpsPort : Z) : list (string * any) :=
  [ ("devwrap-http",
     AMap [ ("listen", AArr [AStr (":" +:+ Strings.Itoa httpPort)]);
            ("routes", AArr []) ]);
    ("devwrap-https",
     AMap [ ("listen", AArr [AStr (":" +:+ Strings.Itoa httpsPort)]);
            ("tls_connection_policies", AArr [AMap []]);
            ("routes", AArr []) ]) ].

(** * Vocabulary of the properties *)




Definition foreignRoute (route : any) : Prop := isDevwrapRoute route = false.
Definition ownedRoute (route : any) : Prop := isDevwrapRoute route = true.

#[global] Instance foreignRoute_dec route : Decision (foreignRoute route).
Proof. unfold foreignRoute. apply _. Defined.

#[global] Instance ownedRoute_dec route : Decision (ownedRoute route).
Proof. unfold ownedRoute. apply _. Defined.

(** A policy of the automation list that carries the id of devwrap. *)
Definition isDevwrapPolicy (policy : any) : bool :=
  match policy with
  | AMap m => String.eqb (default "" (asString (mapIndex m "@id"))) devwrapInternalTLSPolicyID
  | _ => false
  end.

Definition foreignPolicy (policy : any) : Prop := isDevwrapPolicy policy = false.

#[global] Instance foreignPolicy_dec policy : Decision (foreignPolicy policy).
Proof. unfold foreignPolicy. apply _. Defined.

(** A port the scan may return: not recorded, and a loopback listener
    binds. *)
Definition bindable (E : Env) (used : gset Z) (p : Z) : Prop :=
  (p ∉ used) ∧ listenOK E p = true.

(** [m] leaves both files alone and appends to the admin log only requests
    that satisfy [R]. *)
Definition adminOnly {A} (R : Request → Prop) (m : M A) : Prop :=
  ∀ w, ∃ reqs,
    (m w).2 = mkWorld (stateFile w) (stateTmp w) (adminLog w ++ reqs)
    ∧ Forall R reqs.

(** A request that writes the route list of some server. *)
Definition routesWrite (req : Request) : Prop :=
  Strings.HasPrefix (path req) "/config/apps/http/servers/" = true
  ∧ is_Some (payload req).

(** Every route list written is the merge of a server's routes with the
    routes of [apps]. *)
Definition reconciles (apps : gmap string App) (req : Request) : Prop :=
  routesWrite req →
  ∃ server,
    payload req = Some (AArr (mergeExternalRoutes server (makeDevwrapRoutes apps))).

(** Every route list written holds, as its owned routes, routes of [apps]
    only. *)
Definition routesFrom (apps : gmap string App) (req : Request) : Prop :=
  routesWrite req →
  ∃ routes,
    payload req = Some (AArr routes)
    ∧ ∀ route, route ∈ routes → ownedRoute route →
        ∃ name app, apps !! name = Some app ∧ route = devwrapRoute app.

(** A request that changes nothing on the control plane. *)
Definition readOnly (req : Request) : Prop := method req = GET.

(** The entry [requestLeaseDirect] stores under [name]. *)
Definition leasedApp (E : Env)
    (live : gmap string App) (name : string) (pid : Z) (app : App) : Prop :=
  match live !! name with
  | Some old => app = mkApp (Name old) (Host old) (Port old) pid (nowRFC3339 E)
  | None =>
      ∃ port, allocatePortFromApps E live = inr port
              ∧ app = mkApp name (name +:+ ".localhost") port pid (nowRFC3339 E)
  end.

(** The state file [requestLeaseDirect] writes for the discovered ports
    and the apps it ends with. *)
Definition savedState (httpPort httpsPort : Z) (apps : gmap string App)
    : fileContent :=
  Document (marshalState
    (mkState 1 "unmanaged" ((httpPort =? 80) && (httpsPort =? 443))
             httpPort httpsPort apps)).

(** Reconcile the routes with the apps of [state], then save it. *)
Definition reconcileAndSave (E : Env) (state : daemonState) : M unit :=
  let* _ := applyRoutesViaAdmin E (Apps state) in
  saveLocalState E state.

(** The document [d] with other unknown members. *)
Definition withOther (d : stateDoc) (other : list (string * any)) : stateDoc :=
  mkDoc (doc_version d) (doc_caddy_source d) (doc_root d) (doc_http_port d)
        (doc_https_port d) (doc_apps d) other.




(** ** Vocabulary of the further properties *)

(** A decimal digit. *)
Definition isDigit (c : ascii) : bool :=
  match Strings.digitValue c with Some _ => true | None => false end.

(** The bytes of the placeholder [@PORT]. *)
Definition placeholderByte (c : ascii) : bool :=
  Ascii.eqb c "@" || Ascii.eqb c "P" || Ascii.eqb c "O" || Ascii.eqb c "R"
  || Ascii.eqb c "T".

(** Any other byte. *)
Definition plainByte (c : ascii) : bool := negb (placeholderByte c).

(** The bytes of an accepted host: what [hostRune] admits, and the dot. *)
Definition hostByte (c : ascii) : bool := hostRune c || Ascii.eqb c ".".

(** What [checkLabels] demands of a label. *)
Definition goodLabel (label : string) : Prop :=
  label ≠ ""
  ∧ isDash (firstByte label) = false
  ∧ isDash (lastByte label) = false
  ∧ allRunes hostRune label = true.

(** The names picked so far are empty or among [known]; the ports are
    positive. *)
Definition picked (known : string → Prop) (acc : string * string * Z * Z) : Prop :=
  let '(httpName, httpsName, httpPort, httpsPort) := acc in
  (httpName = "" ∨ known httpName) ∧ (httpsName = "" ∨ known httpsName)
  ∧ 0 < httpPort ∧ 0 < httpsPort.

(** One of the two names has been picked. *)
Definition someName (acc : string * string * Z * Z) : Prop :=
  let '(httpName, httpsName, _, _) := acc in httpName ≠ "" ∨ httpsName ≠ "".

(** No two apps share a port. *)
Definition distinctPorts (apps : gmap string App) : Prop :=
  ∀ name1 name2 app1 app2,
    apps !! name1 = Some app1 → apps !! name2 = Some app2 →
    name1 ≠ name2 → Port app1 ≠ Port app2.

(** The source tag as [loadLocalState] rewrites it: tags of earlier
    versions are mapped to the current ones. *)
Definition currentSource (src : string) : string :=
  if String.eqb src "" || String.eqb src "existing" then "unmanaged"
  else if String.eqb src "spawned" then "managed"
  else src.

(** A byte that does not separate host and port. *)
Definition notColon (c : ascii) : bool := negb (Ascii.eqb c ":").

(** ** Concrete surroundings used in the examples *)

Module Scenario.

Definition foreign : any :=
  AMap [("handle", AArr [AMap [("handler", AStr "file_server")]])].

Definition stale : any :=
  AMap [("@id", AStr "devwrap-old"); ("handle", AArr [])].

(** Two servers: srv0 terminates TLS on 443, srv1 serves HTTP on 80 and
    holds a foreign route and a stale devwrap route. *)
Definition servers : any :=
  AMap [ ("srv0", AMap [("listen", AArr [AStr ":443"]); ("routes", AArr [])]);
         ("srv1", AMap [("listen", AArr [AStr ":80"]);
                        ("routes", AArr [foreign; stale])]) ].

(** A control plane that accepts everything and has no TLS app yet. *)
Definition caddyUp (log : list Request) (req : Request) : Response :=
  match method req with
  | GET =>
      if String.eqb (path req) "/config/apps/http/servers"
      then HTTPResponse 200 "" (Some servers)
      else if String.eqb (path req) policiesPath
      then HTTPResponse 404 "" None
      else HTTPResponse 200 "" None
  | _ => HTTPResponse 200 "" None
  end.

(** The same control plane with an automation policy list in place. *)
Definition caddyWithPolicies (log : list Request) (req : Request) : Response :=
  match method req with
  | GET =>
      if String.eqb (path req) policiesPath
      then HTTPResponse 200 "" (Some (AArr [devwrapPolicy ["*.localhost"]]))
      else caddyUp log req
  | _ => HTTPResponse 200 "" None
  end.

(** A control plane whose TLS app answers with an error. *)
Definition caddyTLSDown (log : list Request) (req : Request) : Response :=
  if String.eqb (path req) policiesPath
  then HTTPResponse 500 "tls app unavailable" None
  else caddyUp log req.

Definition env (caddy : list Request → Request → Response) (alive : Z → bool)
    : Env :=
  mkEnv true true alive (λ _, true) caddy "2026-01-01T00:00:00Z"
        WriteDone true None (λ _, false).

Definition app (name : string) (port pid : Z) : App :=
  mkApp name (name +:+ ".localhost") port pid "2025-12-31T00:00:00Z".

Definition world (apps : gmap string App) : World :=
  mkWorld (Document (marshalState (mkState 1 "unmanaged" true 80 443 apps)))
          Absent [].

Definition empty : World := mkWorld Absent Absent [].

End Scenario.

(** * Properties *)

(** ** Route merge *)

Lemma keepForeign_cons route rest out :
  keepForeign (route :: rest) out =
  if isDevwrapRoute route then keepForeign rest out
  else keepForeign rest (out ++ [route]).
Proof. by destruct route. Qed.

Lemma keepForeign_filter existing out :
  keepForeign existing out = out ++ filter foreignRoute existing.
Proof.
  revert out. induction existing as [|route rest IH]; intros out.
  - simpl. by rewrite app_nil_r.
  - rewrite keepForeign_cons. destruct (isDevwrapRoute route) eqn:Hid.
    + rewrite IH, filter_cons_False; [done|].
      unfold foreignRoute. by rewrite Hid.
    + rewrite IH, filter_cons_True, <- app_assoc; [done|].
      unfold foreignRoute. by rewrite Hid.
Qed.

Lemma appendAll_app routes out : appendAll routes out = out ++ routes.
Proof.
  revert out. induction routes as [|route rest IH]; intros out; simpl.
  - by rewrite app_nil_r.
  - by rewrite IH, <- app_assoc.
Qed.

Lemma mergeExternalRoutes_eq server devwrapRoutes :
  mergeExternalRoutes server devwrapRoutes =
  filter foreignRoute (default [] (asSlice (mapIndex server "routes")))
  ++ devwrapRoutes.
Proof.
  unfold mergeExternalRoutes. by rewrite appendAll_app, keepForeign_filter.
Qed.

Lemma devwrapRoute_owned app : ownedRoute (devwrapRoute app).
Proof. reflexivity. Qed.

Lemma sortStrings_Sorted l : Sorted String.le (sortStrings l).
Proof. apply (Sorted_merge_sort String.le). Qed.

Lemma sortStrings_Permutation l : sortStrings l ≡ₚ l.
Proof. apply merge_sort_Permutation. Qed.

Lemma elem_of_mapKeys {A} (m : gmap string A) name :
  name ∈ mapKeys m ↔ is_Some (m !! name).
Proof.
  unfold mapKeys. rewrite list_elem_of_fmap. split.
  - intros [[k v] [-> Hkv]]. apply elem_of_map_to_list in Hkv. by exists v.
  - intros [v Hv]. exists (name, v). split; [done|]. by apply elem_of_map_to_list.
Qed.

Lemma makeDevwrapRoutes_owned apps :
  Forall ownedRoute (makeDevwrapRoutes apps).
Proof.
  unfold makeDevwrapRoutes. apply Forall_fmap, Forall_forall.
  intros name _. apply devwrapRoute_owned.
Qed.

Lemma elem_of_makeDevwrapRoutes (apps : gmap string App) route :
  route ∈ makeDevwrapRoutes apps ↔
  ∃ name app, apps !! name = Some app ∧ route = devwrapRoute app.
Proof.
  unfold makeDevwrapRoutes. rewrite list_elem_of_fmap. split.
  - intros (name & -> & Hin). rewrite sortStrings_Permutation in Hin.
    apply elem_of_mapKeys in Hin as [app Happ]. exists name, app.
    by rewrite Happ.
  - intros (name & app & Happ & ->). exists name. rewrite Happ. split; [done|].
    rewrite sortStrings_Permutation. apply elem_of_mapKeys. by exists app.
Qed.


Lemma filter_none {A} (P : A → Prop) `{!∀ x, Decision (P x)} (l : list A) :
  Forall (λ x, ¬ P x) l → filter P l = [].
Proof.
  induction 1 as [|x l Hx _ IH]; [done|]. by rewrite filter_cons_False.
Qed.

Lemma owned_not_foreign route : ownedRoute route → ¬ foreignRoute route.
Proof. unfold ownedRoute, foreignRoute. congruence. Qed.



(** ** Port allocation *)

Lemma elem_of_usedPorts (apps : gmap string App) (p : Z) :
  p ∈ usedPorts apps ↔ ∃ name app, apps !! name = Some app ∧ Port app = p.
Proof.
  unfold usedPorts. rewrite elem_of_list_to_set, list_elem_of_fmap. split.
  - intros (app & -> & Hin). apply list_elem_of_fmap in Hin as ([name app'] & -> & Hin).
    apply elem_of_map_to_list in Hin. by exists name, app'.
  - intros (name & app & Hl & <-). exists app. split; [done|].
    apply list_elem_of_fmap. exists (name, app). split; [done|].
    by apply elem_of_map_to_list.
Qed.

Section Ports.

Variable E : Env.
Variable used : gset Z.

(** With enough fuel to reach 19999 the scan returns the least bindable
    port from [port] on, or nothing when there is none. *)
Lemma scanPorts_spec (fuel : nat) (port : Z) :
  19999 - port < Z.of_nat fuel →
  match scanPorts E used fuel port with
  | Some p =>
    port ≤ p ≤ 19999 ∧ bindable E used p ∧ ∀ q, port ≤ q < p → ¬ bindable E used q
  | None => ∀ q, port ≤ q ≤ 19999 → ¬ bindable E used q
  end.
Proof.
  revert port. induction fuel as [|fuel IH]; intros port Hfuel.
  - simpl. destruct (port <=? 19999) eqn:Hle; [lia|]. intros q Hq. lia.
  - simpl. destruct (port <=? 19999) eqn:Hle; [|intros q Hq; lia].
    apply Z.leb_le in Hle.
    assert (Hnext : 19999 - (port + 1) < Z.of_nat fuel) by lia.
    specialize (IH (port + 1) Hnext).
    destruct (bool_decide (port ∈ used)) eqn:Hused.
    + apply bool_decide_eq_true in Hused.
      destruct (scanPorts E used fuel (port + 1)) as [p|].
      * destruct IH as (Hp & Hb & Hmin). split_and!; [lia|lia|done|].
        intros q Hq. destruct (decide (q = port)) as [->|Hne].
        -- intros [Hn _]. done.
        -- apply Hmin. lia.
      * intros q Hq. destruct (decide (q = port)) as [->|Hne].
        -- intros [Hn _]. done.
        -- apply IH. lia.
    + apply bool_decide_eq_false in Hused.
      destruct (listenOK E port) eqn:Hlisten.
      * split_and!; [lia|lia|done|]. intros q Hq. lia.
      * destruct (scanPorts E used fuel (port + 1)) as [p|].
        -- destruct IH as (Hp & Hb & Hmin). split_and!; [lia|lia|done|].
           intros q Hq. destruct (decide (q = port)) as [->|Hne].
           ++ intros [_ Hl]. congruence.
           ++ apply Hmin. lia.
        -- intros q Hq. destruct (decide (q = port)) as [->|Hne].
           ++ intros [_ Hl]. congruence.
           ++ apply IH. lia.
Qed.

End Ports.

(** C5.  A port is a candidate when it lies in 11000..19999, no lease
    records it and a loopback listener can be bound to it.  Allocation
    returns exactly the least candidate, and fails, with the exhaustion
    error, exactly when there is no candidate.  With no lease and every port
    of the range bindable it returns 11000. *)
Theorem port_allocation_first_bindable (E : Env) (apps : gmap string App) :
  let recorded p := ∃ name app, apps !! name = Some app ∧ Port app = p in
  let candidate p := 11000 ≤ p ≤ 19999 ∧ ¬ recorded p ∧ listenOK E p = true in
  (∀ p, allocatePortFromApps E apps = inr p ↔
        candidate p ∧ ∀ q, candidate q → p ≤ q)
  ∧ (∀ e, allocatePortFromApps E apps = inl e ↔
          e = ErrNoFreePorts ∧ ∀ q, ¬ candidate q)
  ∧ (apps = ∅ → (∀ p, 11000 ≤ p ≤ 19999 → listenOK E p = true) →
     allocatePortFromApps E apps = inr 11000).
Proof.
  intros recorded candidate.
  assert (Hcand : ∀ p, candidate p ↔
            11000 ≤ p ≤ 19999 ∧ bindable E (usedPorts apps) p).
  { intros p. unfold candidate, bindable, recorded.
    rewrite elem_of_usedPorts. tauto. }
  pose proof (scanPorts_spec E (usedPorts apps) (Z.to_nat 9000) 11000) as Hscan.
  assert (Hfuel : 19999 - 11000 < Z.of_nat (Z.to_nat 9000)) by lia.
  specialize (Hscan Hfuel).
  assert (Hfirst : ∀ p, allocatePortFromApps E apps = inr p ↔
            candidate p ∧ ∀ q, candidate q → p ≤ q).
  { intros p. unfold allocatePortFromApps.
    destruct (scanPorts E (usedPorts apps) (Z.to_nat 9000) 11000) as [p0|].
    - destruct Hscan as (Hr & Hb & Hmin). split.
      + intros [= <-]. split; [by apply Hcand|].
        intros q Hq%Hcand. destruct (Z.le_gt_cases p0 q) as [|Hlt]; [done|].
        destruct (Hmin q); [lia|tauto].
      + intros [Hp%Hcand Hleast]. f_equal.
        assert (p ≤ p0) by (apply Hleast, Hcand; done).
        destruct (Z.le_gt_cases p0 p) as [|Hlt]; [lia|].
        destruct (Hmin p); [lia|tauto].
    - split; [done|]. intros [Hp%Hcand _]. destruct (Hscan p); tauto. }
  split_and!.
  - done.
  - intros e. unfold allocatePortFromApps.
    destruct (scanPorts E (usedPorts apps) (Z.to_nat 9000) 11000) as [p0|].
    + destruct Hscan as (Hr & Hb & Hmin). split; [done|].
      intros [_ Hnone]. destruct (Hnone p0). by apply Hcand.
    + split.
      * intros [= <-]. split; [done|]. intros q Hq%Hcand. destruct (Hscan q); tauto.
      * by intros [-> _].
  - intros -> Hall. apply Hfirst. split.
    + split_and!; [lia|lia| |apply Hall; lia].
      intros (name & app & Hl & _). by rewrite lookup_empty in Hl.
    + intros q [Hq _]. lia.
Qed.

(** ** Effects of the admin functions *)

Lemma world_eta w : mkWorld (stateFile w) (stateTmp w) (adminLog w) = w.
Proof. by destruct w. Qed.

Section AdminOnly.

Context {A B : Type} (R : Request → Prop).

Lemma adminOnly_ret (a : A) : adminOnly R (ret a).
Proof. intros w. exists []. by rewrite app_nil_r, world_eta. Qed.

Lemma adminOnly_fail (e : error) : adminOnly R (@fail A e).
Proof. intros w. exists []. by rewrite app_nil_r, world_eta. Qed.

Lemma adminOnly_lift (r : error + A) : adminOnly R (lift r).
Proof. intros w. exists []. by rewrite app_nil_r, world_eta. Qed.

Lemma adminOnly_bind (m : M A) (k : A → M B) :
  adminOnly R m → (∀ a, adminOnly R (k a)) → adminOnly R (bind m k).
Proof.
  intros Hm Hk w. destruct (Hm w) as (reqs1 & Hw1 & HR1). unfold bind.
  destruct (m w) as [[e|a] w1]; simpl in Hw1; subst w1.
  - by exists reqs1.
  - destruct (Hk a (mkWorld (stateFile w) (stateTmp w) (adminLog w ++ reqs1)))
      as (reqs2 & Hw2 & HR2).
    exists (reqs1 ++ reqs2). rewrite Hw2. simpl. rewrite app_assoc.
    split; [done|]. by apply Forall_app.
Qed.

Lemma adminOnly_discard (m : M A) : adminOnly R m → adminOnly R (discard m).
Proof. intros Hm w. destruct (Hm w) as (reqs & Hw & HR). by exists reqs. Qed.

Lemma adminOnly_send E (req : Request) : R req → adminOnly R (send E req).
Proof. intros HR w. exists [req]. split; [done|]. by constructor. Qed.

End AdminOnly.

Lemma adminOnly_impl {A} (R1 R2 : Request → Prop) (m : M A) :
  (∀ req, R1 req → R2 req) → adminOnly R1 m → adminOnly R2 m.
Proof.
  intros HR Hm w. destruct (Hm w) as (reqs & Hw & H1). exists reqs.
  split; [done|]. eapply Forall_impl; eauto.
Qed.

Ltac admin_only :=
  repeat match goal with
    | |- adminOnly _ (bind _ _) => apply adminOnly_bind; [|intros ?]
    | |- adminOnly _ (ret _) => apply adminOnly_ret
    | |- adminOnly _ (fail _) => apply adminOnly_fail
    | |- adminOnly _ (lift _) => apply adminOnly_lift
    | |- adminOnly _ (discard _) => apply adminOnly_discard
    | |- adminOnly _ (send _ _) => apply adminOnly_send
    | |- adminOnly _ (match ?x with _ => _ end) => destruct x
    end.

Lemma readOnly_reconciles apps req :
  readOnly req → payload req = None → reconciles apps req.
Proof. intros _ Hp [_ [x Hx]]. congruence. Qed.

Lemma reconciles_routesFrom apps req : reconciles apps req → routesFrom apps req.
Proof.
  intros Hrec Hw. destruct (Hrec Hw) as (server & Hpay).
  eexists. split; [exact Hpay|]. intros route Hin Howned.
  rewrite mergeExternalRoutes_eq, elem_of_app, list_elem_of_filter in Hin.
  destruct Hin as [[Hforeign _]|Hin].
  - by destruct (owned_not_foreign route).
  - by apply elem_of_makeDevwrapRoutes.
Qed.

Lemma Forall_reconciles_routesFrom apps reqs :
  Forall (reconciles apps) reqs → Forall (routesFrom apps) reqs.
Proof.
  intros H. eapply Forall_impl; [exact H|]. apply reconciles_routesFrom.
Qed.

Section AdminFacts.

Variable E : Env.

Lemma fetchExternalServers_adminOnly :
  adminOnly (λ req, readOnly req ∧ payload req = None) (fetchExternalServers E).
Proof. unfold fetchExternalServers, adminGet. admin_only. done. Qed.

Lemma isCertTrusted_adminOnly :
  adminOnly (λ req, readOnly req ∧ payload req = None) (isCertTrusted E).
Proof. unfold isCertTrusted, adminGet. admin_only. done. Qed.

Lemma isCertTrusted_total w : ∃ trusted, (isCertTrusted E w).1 = inr trusted.
Proof.
  unfold isCertTrusted, adminGet, bind, send. simpl.
  destruct (caddy E _ _) as [|status text json]; [by eexists|].
  destruct (300 <=? status); by eexists.
Qed.

Lemma putExternalRoutes_adminOnly serverName routes :
  adminOnly (λ req, routesWrite req → payload req = Some (AArr routes))
            (putExternalRoutes E serverName routes).
Proof.
  unfold putExternalRoutes, adminDoJSON. admin_only; try done.
  intros [_ [x Hx]]. done.
Qed.

Lemma not_routes_policies :
  Strings.HasPrefix policiesPath "/config/apps/http/servers/" = false.
Proof. reflexivity. Qed.

Lemma syncDevwrapInternalTLSPolicy_adminOnly apps :
  adminOnly (λ req, ¬ routesWrite req) (syncDevwrapInternalTLSPolicy E apps).
Proof.
  unfold syncDevwrapInternalTLSPolicy, fetchTLSAutomationPolicies,
    putTLSAutomationPolicies, createTLSAppWithPolicies, adminGet, adminDoJSON.
  admin_only; try (intros [Hp _]; simpl in Hp; discriminate).
Qed.

Lemma applyRoutesViaAdmin_adminOnly apps :
  adminOnly (reconciles apps) (applyRoutesViaAdmin E apps).
Proof.
  unfold applyRoutesViaAdmin.
  apply adminOnly_bind.
  { eapply adminOnly_impl; [|apply fetchExternalServers_adminOnly].
    intros req [Hr Hp]. by apply readOnly_reconciles. }
  intros servers. apply adminOnly_bind; [apply adminOnly_lift|].
  intros [[[httpPort httpsPort] httpName] httpsName].
  apply adminOnly_bind.
  { eapply adminOnly_impl; [|apply putExternalRoutes_adminOnly].
    intros req Hreq Hw. eexists. by apply Hreq. }
  intros _. apply adminOnly_bind.
  { destruct (negb _); [|apply adminOnly_ret].
    eapply adminOnly_impl; [|apply putExternalRoutes_adminOnly].
    intros req Hreq Hw. eexists. by apply Hreq. }
  intros _. apply adminOnly_bind; [|intros; apply adminOnly_ret].
  eapply adminOnly_impl; [|apply syncDevwrapInternalTLSPolicy_adminOnly].
  intros req Hn Hw. done.
Qed.

End AdminFacts.

(** ** The lease manager, case by case *)

Section LeaseFacts.

Variable E : Env.

Lemma loadLocalState_world w : (loadLocalState E w).2 = w.
Proof.
  unfold loadLocalState, statePath, bind.
  destruct (runtimeDirOK E); simpl; [|done].
  by destruct (stateFile w).
Qed.

Lemma loadLocalState_eq w r w' : loadLocalState E w = (r, w') → w' = w.
Proof. intros H. by rewrite <- (loadLocalState_world w), H. Qed.

Lemma applyRoutesViaAdmin_world apps w r w1 :
  applyRoutesViaAdmin E apps w = (r, w1) →
  ∃ reqs, w1 = mkWorld (stateFile w) (stateTmp w) (adminLog w ++ reqs)
          ∧ Forall (reconciles apps) reqs.
Proof.
  intros H. destruct (applyRoutesViaAdmin_adminOnly E apps w) as (reqs & Hw & HR).
  rewrite H in Hw. by exists reqs.
Qed.

Lemma isCertTrusted_run w :
  ∃ trusted req,
    isCertTrusted E w =
      (inr trusted, mkWorld (stateFile w) (stateTmp w) (adminLog w ++ [req]))
    ∧ readOnly req ∧ payload req = None.
Proof.
  unfold isCertTrusted, adminGet, bind, send. simpl.
  destruct (caddy E _ _) as [|status text json]; [by eexists _, _|].
  destruct (300 <=? status); by eexists _, _.
Qed.

(** What a run of [requestLeaseDirect] leaves behind: on an error the
    state file is the one found; on success the state file holds the live
    apps with the lease stored under [name], and every route list sent was
    computed from those apps. *)
Lemma requestLeaseDirect_inv name pid w r w' :
  requestLeaseDirect E name pid w = (r, w') →
  match r with
  | inl _ => stateFile w' = stateFile w
  | inr lease =>
      ∃ state app httpPort httpsPort,
        let apps := <[name := app]> (evictDead E (Apps state)) in
        loadLocalState E w = (inr state, w)
        ∧ leasedApp E (evictDead E (Apps state)) name pid app
        ∧ stateFile w' = savedState httpPort httpsPort apps
        ∧ lease_Name lease = Name app
        ∧ lease_Host lease = Host app
        ∧ lease_Port lease = Port app
        ∧ ∃ reqs, adminLog w' = adminLog w ++ reqs
                  ∧ Forall (reconciles apps) reqs
  end.
Proof.
  unfold requestLeaseDirect, withStateLock. intros Hrun.
  destruct (runtimeDirOK E) eqn:Hdir; simpl in Hrun;
    [|by injection Hrun as <- <-].
  destruct (flockOK E) eqn:Hflock; simpl in Hrun;
    [|by injection Hrun as <- <-].
  unfold bind at 1 in Hrun.
  destruct (loadLocalState E w) as [[e|state] w0] eqn:Hload;
    pose proof (loadLocalState_eq _ _ _ Hload) as ->;
    [by injection Hrun as <- <-|].
  set (live := evictDead E (Apps state)) in *.
  assert (Happ : ∃ app, leasedApp E live name pid app ∧
            bind (applyRoutesViaAdmin E (<[name:=app]> live))
              (λ '(httpPort, httpsPort),
                 bind (saveLocalState E
                         (mkState 1 "unmanaged"
                            ((httpPort =? 80) && (httpsPort =? 443))
                            httpPort httpsPort (<[name:=app]> live)))
                   (λ _, leaseFromAppAndPorts E app httpPort httpsPort)) w
            = (r, w')
          ∨ (∃ e, r = inl e) ∧ w' = w).
  { unfold leasedApp. destruct (live !! name) as [old|] eqn:Hold.
    - eexists. left. split; [reflexivity|exact Hrun].
    - unfold bind at 1 2 in Hrun. unfold lift at 1 in Hrun.
      destruct (allocatePortFromApps E live) as [e|port] eqn:Hport.
      + exists zeroApp. right. injection Hrun as <- <-. eauto.
      + eexists. left. split; [by eexists|exact Hrun]. }
  clear Hrun. destruct Happ as (app & [[Happ Hrun]|[[e ->] ->]]); [|done].
  unfold bind at 1 in Hrun.
  destruct (applyRoutesViaAdmin E (<[name:=app]> live) w)
    as [[e|[httpPort httpsPort]] w1] eqn:Happly;
    apply applyRoutesViaAdmin_world in Happly as (reqs & -> & HR);
    [by injection Hrun as <- <-|].
  unfold bind at 1 in Hrun. unfold saveLocalState, statePath, bind in Hrun.
  rewrite Hdir in Hrun. simpl in Hrun.
  destruct (tmpWrite E); [|by injection Hrun as <- <-..].
  destruct (renameOK E); [|by injection Hrun as <- <-].
  unfold leaseFromAppAndPorts, bind in Hrun.
  match type of Hrun with
  | context [isCertTrusted E ?w2] =>
      destruct (isCertTrusted_run w2) as (trusted & req & Hcert & Hro & Hpl)
  end.
  rewrite Hcert in Hrun. simpl in Hrun. injection Hrun as <- <-.
  exists state, app, httpPort, httpsPort. simpl. split_and!; try done.
  exists (reqs ++ [req]). rewrite app_assoc. split; [done|].
  apply Forall_app. split; [done|]. constructor; [|done].
  by apply readOnly_reconciles.
Qed.

Lemma loadLocalState_dir w state w' :
  loadLocalState E w = (inr state, w') → runtimeDirOK E = true.
Proof.
  unfold loadLocalState, statePath, bind.
  destruct (runtimeDirOK E); simpl; [done|]. discriminate.
Qed.

(** Loading reads the state file and nothing else of the world. *)
Lemma loadLocalState_file w1 w2 :
  stateFile w1 = stateFile w2 →
  (loadLocalState E w1).1 = (loadLocalState E w2).1.
Proof.
  intros Hf. unfold loadLocalState, statePath, bind.
  destruct (runtimeDirOK E); simpl; [|done]. rewrite Hf.
  by destruct (stateFile w2).
Qed.

Lemma loadLocalState_transfer w1 w2 r :
  stateFile w1 = stateFile w2 →
  loadLocalState E w1 = (r, w1) → loadLocalState E w2 = (r, w2).
Proof.
  intros Hf H1. pose proof (loadLocalState_file w1 w2 Hf) as Hr.
  pose proof (loadLocalState_world w2) as Hw.
  rewrite H1 in Hr. simpl in Hr.
  destruct (loadLocalState E w2) as [r2 w2']. simpl in *. by subst.
Qed.

Lemma unmarshal_marshal state :
  unmarshalState (marshalState state) defaultState = state.
Proof.
  destruct state as [v src root hp hsp apps]. unfold unmarshalState. cbn.
  f_equal. apply (right_id_L ∅ (∪)).
Qed.

(** Loading what [saveLocalState] wrote gives back the apps, the ports
    and the version that were saved. *)
Lemma loadLocalState_saved w state :
  runtimeDirOK E = true →
  stateFile w = Document (marshalState state) →
  ∃ state', loadLocalState E w = (inr state', w)
            ∧ Apps state' = Apps state
            ∧ Version state' = Version state
            ∧ HTTPPort state' = HTTPPort state
            ∧ HTTPSPort state' = HTTPSPort state.
Proof.
  intros Hdir Hf. unfold loadLocalState, statePath, bind.
  rewrite Hdir. cbn [ret]. rewrite Hf, unmarshal_marshal.
  eexists. split; [reflexivity|].
  repeat match goal with |- context [if ?b then _ else _] => destruct b end;
    done.
Qed.

Lemma lookup_evictDead (apps : gmap string App) name app :
  evictDead E apps !! name = Some app ↔
  apps !! name = Some app ∧ processAlive E (PID app) = true.
Proof. unfold evictDead. by rewrite map_lookup_filter_Some. Qed.

Lemma evictDead_dead (apps : gmap string App) name app :
  apps !! name = Some app → processAlive E (PID app) = false →
  evictDead E apps !! name = None.
Proof.
  intros Hl Hdead. destruct (evictDead E apps !! name) as [app'|] eqn:Hev; [|done].
  apply lookup_evictDead in Hev as [Hl' Halive]. congruence.
Qed.

Lemma evictDead_all_alive (apps : gmap string App) :
  (∀ name app, apps !! name = Some app → processAlive E (PID app) = true) →
  evictDead E apps = apps.
Proof.
  intros Hall. apply map_eq. intros name.
  destruct (apps !! name) as [app|] eqn:Hl.
  - apply lookup_evictDead. eauto.
  - destruct (evictDead E apps !! name) as [app'|] eqn:Hev; [|done].
    apply lookup_evictDead in Hev as [Hl' _]. congruence.
Qed.

Lemma changed_true (apps : gmap string App) name app :
  apps !! name = Some app → processAlive E (PID app) = false →
  existsb (λ kv, negb (processAlive E (PID kv.2))) (map_to_list apps) = true.
Proof.
  intros Hl Hdead. apply existsb_exists. exists (name, app). split.
  - apply list_elem_of_In. by apply elem_of_map_to_list.
  - simpl. by rewrite Hdead.
Qed.

Lemma changed_false (apps : gmap string App) :
  existsb (λ kv, negb (processAlive E (PID kv.2))) (map_to_list apps) = false →
  evictDead E apps = apps.
Proof.
  intros Hno. apply evictDead_all_alive. intros name app Hl.
  destruct (processAlive E (PID app)) eqn:Halive; [done|].
  by rewrite (changed_true apps name app Hl Halive) in Hno.
Qed.

(** [Release] with a positive PID that is not the owner's: nothing
    happens. *)
Lemma releaseLeaseDirect_guard name pid w state app :
  loadLocalState E w = (inr state, w) →
  Apps state !! name = Some app →
  0 < pid → PID app ≠ pid →
  releaseLeaseDirect E name pid w = (inr tt, w).
Proof.
  intros Hload Hl Hpos Hne.
  unfold releaseLeaseDirect, discard, withStateLock.
  rewrite (loadLocalState_dir _ _ _ Hload). simpl.
  destruct (flockOK E); simpl; [|done].
  unfold bind. rewrite Hload, Hl.
  destruct (0 <? pid) eqn:Hp; [|lia].
  destruct (PID app =? pid) eqn:Heq; [lia|]. done.
Qed.

(** [Release] with a PID that is not positive: the owner is not looked
    at. *)
Lemma releaseLeaseDirect_unguarded name pid w state app :
  flockOK E = true →
  loadLocalState E w = (inr state, w) →
  Apps state !! name = Some app →
  pid ≤ 0 →
  releaseLeaseDirect E name pid w =
  discard (reconcileAndSave E (withApps state (delete name (Apps state)))) w.
Proof.
  intros Hflock Hload Hl Hpid.
  unfold releaseLeaseDirect, discard, withStateLock.
  rewrite (loadLocalState_dir _ _ _ Hload), Hflock. simpl.
  unfold bind at 1. rewrite Hload, Hl.
  destruct (0 <? pid) eqn:Hp; [lia|]. done.
Qed.

(** [Release] by the owner. *)
Lemma releaseLeaseDirect_owner name w state app :
  flockOK E = true →
  loadLocalState E w = (inr state, w) →
  Apps state !! name = Some app →
  releaseLeaseDirect E name (PID app) w =
  discard (reconcileAndSave E (withApps state (delete name (Apps state)))) w.
Proof.
  intros Hflock Hload Hl.
  unfold releaseLeaseDirect, discard, withStateLock.
  rewrite (loadLocalState_dir _ _ _ Hload), Hflock. simpl.
  unfold bind at 1. rewrite Hload, Hl, Z.eqb_refl, andb_false_r. done.
Qed.

(** A reconciliation that goes through, followed by a write that goes
    through, replaces the state file. *)
Lemma reconcileAndSave_done state w ports w1 :
  runtimeDirOK E = true →
  applyRoutesViaAdmin E (Apps state) w = (inr ports, w1) →
  tmpWrite E = WriteDone → renameOK E = true →
  ∃ reqs,
    reconcileAndSave E state w =
      (inr tt, mkWorld (Document (marshalState state)) Absent (adminLog w ++ reqs))
    ∧ Forall (reconciles (Apps state)) reqs.
Proof.
  intros Hdir Happly Hwrite Hrename.
  unfold reconcileAndSave, bind. rewrite Happly.
  apply applyRoutesViaAdmin_world in Happly as (reqs & -> & HR).
  exists reqs. split; [|done].
  unfold saveLocalState, statePath, bind. rewrite Hdir, Hwrite, Hrename. done.
Qed.

(** Without it the state file stays. *)
Lemma reconcileAndSave_world state w :
  ∃ reqs,
    adminLog (reconcileAndSave E state w).2 = adminLog w ++ reqs
    ∧ Forall (reconciles (Apps state)) reqs
    ∧ (stateFile (reconcileAndSave E state w).2 = stateFile w
       ∨ stateFile (reconcileAndSave E state w).2 = Document (marshalState state)).
Proof.
  unfold reconcileAndSave, bind.
  destruct (applyRoutesViaAdmin E (Apps state) w) as [[e|ports] w1] eqn:Happly;
    apply applyRoutesViaAdmin_world in Happly as (reqs & -> & HR);
    exists reqs; simpl; [by auto|].
  unfold saveLocalState, statePath, bind.
  destruct (runtimeDirOK E); simpl; [|by auto].
  destruct (tmpWrite E); simpl; [|by auto..].
  destruct (renameOK E); simpl; by auto.
Qed.

End LeaseFacts.

(** ** Acquisition *)

(** C8.  An acquisition that returns an error leaves the state file as it
    found it: no lease was stored and no half-updated document replaces the
    old one. *)
Theorem failed_acquisition_keeps_state
    (E : Env) (name host : string) (pid : Z) (w w' : World) (e : error) :
  acquireLease E name host pid w = (inl e, w') →
  stateFile w' = stateFile w.
Proof.
  unfold acquireLease. intros Hrun.
  exact (requestLeaseDirect_inv E name pid w (inl e) w' Hrun).
Qed.

(** The routes of the HTTP server are written, then the TLS policy query
    fails: the acquisition fails and the state file still has no lease. *)
Lemma failed_acquisition_keeps_state_witness :
  let E := Scenario.env Scenario.caddyTLSDown (λ pid, pid =? 100) in
  stateFile (acquireLease E "api" "" 100 Scenario.empty).2 = Absent
  ∧ length (adminLog (acquireLease E "api" "" 100 Scenario.empty).2) = 4%nat.
Proof.
  intros E. split; [|by vm_compute].
  apply (failed_acquisition_keeps_state E "api" "" 100 Scenario.empty _
           (ErrTLSQuery "tls app unavailable")).
  by vm_compute.
Defined.

(** C3, as amended.  Acquiring [x] for [P] twice in succession, [P] being
    alive at the second call, gives the same port and host both times: the
    second call rewrites the entry of [x] in place (owner and time stamp)
    and allocates no port.  It also drops the leases whose owner has died
    in between, so the stored apps never grow in number; they keep their
    names and their number when every recorded owner is still alive, and
    are fewer when one is not. *)
Theorem reacquire_same_lease
    (E1 E2 : Env) (x : string) (P : Z) (w0 w1 w2 : World) (lease1 lease2 : Lease) :
  processAlive E2 P = true →
  requestLeaseDirect E1 x P w0 = (inr lease1, w1) →
  requestLeaseDirect E2 x P w1 = (inr lease2, w2) →
  lease_Port lease2 = lease_Port lease1
  ∧ lease_Host lease2 = lease_Host lease1
  ∧ ∃ state1 state2 app1,
      loadLocalState E2 w1 = (inr state1, w1)
      ∧ loadLocalState E2 w2 = (inr state2, w2)
      ∧ Apps state1 !! x = Some app1
      ∧ Port app1 = lease_Port lease1
      ∧ Apps state2 =
          <[x := mkApp (Name app1) (Host app1) (Port app1) P (nowRFC3339 E2)]>
            (evictDead E2 (Apps state1))
      ∧ dom (Apps state2) ⊆ dom (Apps state1)
      ∧ (size (Apps state2) ≤ size (Apps state1))%nat
      ∧ ((∀ name app, Apps state1 !! name = Some app →
            processAlive E2 (PID app) = true) →
         Apps state2 =
           <[x := mkApp (Name app1) (Host app1) (Port app1) P (nowRFC3339 E2)]>
             (Apps state1)
         ∧ dom (Apps state2) = dom (Apps state1)
         ∧ size (Apps state2) = size (Apps state1))
      ∧ (∀ name app, Apps state1 !! name = Some app →
           processAlive E2 (PID app) = false →
           Apps state2 !! name = None
           ∧ (size (Apps state2) < size (Apps state1))%nat).
Proof.
  intros HP Hrun1 Hrun2.
  apply requestLeaseDirect_inv in Hrun1
    as (state0 & app1 & hp1 & hsp1 & Hload0 & Happ1 & Hfile1 & _ & Hhost1 & Hport1 & _).
  apply requestLeaseDirect_inv in Hrun2
    as (state1 & app2 & hp2 & hsp2 & Hload1 & Happ2 & Hfile2 & _ & Hhost2 & Hport2 & _).
  set (live1 := evictDead E1 (Apps state0)) in *.
  pose proof (loadLocalState_dir _ _ _ _ Hload1) as Hdir2.
  destruct (loadLocalState_saved E2 w1 _ Hdir2 Hfile1)
    as (state1' & Hload1' & Happs1 & _).
  rewrite Hload1 in Hload1'. injection Hload1' as <-. simpl in Happs1.
  assert (HPID1 : PID app1 = P).
  { unfold leasedApp in Happ1. destruct (live1 !! x).
    - by subst app1.
    - destruct Happ1 as (port & _ & ->). done. }
  assert (Hx : Apps state1 !! x = Some app1)
    by (by rewrite Happs1, lookup_insert_eq).
  set (live2 := evictDead E2 (Apps state1)) in *.
  assert (Hx2 : live2 !! x = Some app1).
  { apply lookup_evictDead. split; [done|]. by rewrite HPID1. }
  unfold leasedApp in Happ2. rewrite Hx2 in Happ2. subst app2.
  destruct (loadLocalState_saved E2 w2 _ Hdir2 Hfile2)
    as (state2 & Hload2 & Happs2 & _).
  simpl in Happs2, Hhost2, Hport2.
  set (app2 := mkApp (Name app1) (Host app1) (Port app1) P (nowRFC3339 E2)) in *.
  assert (Hdom : dom (Apps state2) ⊆ dom (Apps state1)).
  { rewrite Happs2. intros name. rewrite !elem_of_dom.
    rewrite lookup_insert. case_decide as Hname.
    - subst name. intros _. by exists app1.
    - intros [app Hl]. apply lookup_evictDead in Hl as [Hl _]. by exists app. }
  assert (Hsize : (size (Apps state2) ≤ size (Apps state1))%nat).
  { rewrite <- !size_dom. by apply subseteq_size. }
  split_and!; [congruence|congruence|].
  exists state1, state2, app1. split_and!; try done.
  - intros Halive. apply evictDead_all_alive in Halive. fold live2 in Halive.
    rewrite Halive in Happs2. split; [done|]. rewrite Happs2. split.
    + rewrite dom_insert_L. apply subseteq_union_1_L.
      apply singleton_subseteq_l. by apply elem_of_dom_2 in Hx.
    + by apply map_size_insert_Some.
  - intros name app Hl Hdead.
    assert (Hne : name ≠ x).
    { intros ->. rewrite Hx in Hl. injection Hl as <-.
      rewrite HPID1 in Hdead. congruence. }
    assert (Hgone : Apps state2 !! name = None).
    { rewrite Happs2, lookup_insert_ne by done.
      by apply (evictDead_dead E2 _ name app). }
    split; [done|]. rewrite <- !size_dom. apply subset_size.
    split; [done|]. intros Hsub.
    assert (Hin : name ∈ dom (Apps state2)).
    { apply Hsub. by apply elem_of_dom_2 in Hl. }
    apply elem_of_dom in Hin as [? Hin]. congruence.
Qed.

Lemma reacquire_same_lease_witness :
  let E := Scenario.env Scenario.caddyUp (λ pid, pid =? 100) in
  ∃ w1 w2 lease1 lease2,
    requestLeaseDirect E "api" 100 Scenario.empty = (inr lease1, w1)
    ∧ requestLeaseDirect E "api" 100 w1 = (inr lease2, w2)
    ∧ lease_Port lease1 = 11000
    ∧ lease_Port lease2 = lease_Port lease1
    ∧ lease_Host lease2 = lease_Host lease1.
Proof.
  intros E.
  set (first := requestLeaseDirect E "api" 100 Scenario.empty).
  set (second := requestLeaseDirect E "api" 100 first.2).
  set (lease := mkLease "api" "api.localhost" 11000 "http://api.localhost"
                        "https://api.localhost" false).
  assert (H1 : first = (inr lease, first.2)) by (by vm_compute).
  assert (H2 : second = (inr lease, second.2)) by (by vm_compute).
  exists first.2, second.2, lease, lease.
  split; [exact H1|]. split; [exact H2|]. split; [done|].
  pose proof (reacquire_same_lease E E "api" 100 Scenario.empty first.2 second.2
                lease lease) as Hthm.
  destruct Hthm as (Hport & Hhost & _); [by vm_compute|exact H1|exact H2|].
  by split.
Defined.

(** C3, as stated, fails for the count: [P] = 100 is alive throughout, and
    the owner 200 of the lease "other" dies between the two calls; the
    state holds two apps after the first call and one after the second. *)
Lemma reacquire_count_counterexample :
  let E1 := Scenario.env Scenario.caddyUp (λ pid, (pid =? 100) || (pid =? 200)) in
  let E2 := Scenario.env Scenario.caddyUp (λ pid, pid =? 100) in
  let w0 := Scenario.world {[ "other" := Scenario.app "other" 11001 200 ]} in
  let first := requestLeaseDirect E1 "x" 100 w0 in
  let second := requestLeaseDirect E2 "x" 100 first.2 in
  processAlive E1 100 = true
  ∧ processAlive E2 100 = true
  ∧ (∃ lease1 lease2,
       first.1 = inr lease1 ∧ second.1 = inr lease2
       ∧ lease_Port lease2 = lease_Port lease1
       ∧ lease_Host lease2 = lease_Host lease1)
  ∧ (∃ state1, loadLocalState E2 first.2 = (inr state1, first.2)
               ∧ size (Apps state1) = 2%nat)
  ∧ (∃ state2, loadLocalState E2 second.2 = (inr state2, second.2)
               ∧ size (Apps state2) = 1%nat).
Proof.
  intros E1 E2 w0 first second.
  set (x1 := mkApp "x" "x.localhost" 11000 100 "2026-01-01T00:00:00Z").
  set (lease := mkLease "x" "x.localhost" 11000 "http://x.localhost"
                        "https://x.localhost" false).
  split_and!.
  - by vm_compute.
  - by vm_compute.
  - exists lease, lease. split_and!; by vm_compute.
  - exists (mkState 1 "unmanaged" true 80 443
              {[ "x" := x1; "other" := Scenario.app "other" 11001 200 ]}).
    split; by vm_compute.
  - exists (mkState 1 "unmanaged" true 80 443 {[ "x" := x1 ]}).
    split; by vm_compute.
Qed.

(** ** Release *)

(** C4, as amended.  When the lease [x] is recorded for an owner other than
    [Q] and [Q] is positive, [Release(x, Q)] does nothing: the state file,
    its temporary sibling and the control plane (no request is sent) are
    untouched, and nothing is reported. *)
Theorem release_by_stranger_is_noop
    (E : Env) (x : string) (Q : Z) (w : World) (state : daemonState) (app : App) :
  loadLocalState E w = (inr state, w) →
  Apps state !! x = Some app →
  PID app ≠ Q →
  0 < Q →
  releaseLeaseSelected E x Q w = (inr tt, w).
Proof.
  intros Hload Hx Hne Hpos. unfold releaseLeaseSelected.
  by apply (releaseLeaseDirect_guard E x Q w state app).
Qed.

Lemma release_by_stranger_is_noop_witness :
  let E := Scenario.env Scenario.caddyUp (λ pid, pid =? 100) in
  let w := Scenario.world {[ "x" := Scenario.app "x" 11000 100 ]} in
  releaseLeaseSelected E "x" 200 w = (inr tt, w).
Proof.
  intros E w.
  apply (release_by_stranger_is_noop E "x" 200 w
           (mkState 1 "unmanaged" true 80 443 {[ "x" := Scenario.app "x" 11000 100 ]})
           (Scenario.app "x" 11000 100)).
  - by vm_compute.
  - by vm_compute.
  - by vm_compute.
  - lia.
Defined.

(** C4, as stated, fails for a PID that is not positive: the lease [x] is
    recorded for owner 100, [Release(x, 0)] comes from another PID, and yet
    routes are rewritten and the lease is gone from the state file. *)
Lemma release_by_stranger_counterexample :
  let E := Scenario.env Scenario.caddyUp (λ pid, pid =? 100) in
  let w := Scenario.world {[ "x" := Scenario.app "x" 11000 100 ]} in
  let w' := (releaseLeaseSelected E "x" 0 w).2 in
  (∃ state app, loadLocalState E w = (inr state, w)
                ∧ Apps state !! "x" = Some app ∧ PID app = 100 ∧ PID app ≠ 0)
  ∧ releaseLeaseSelected E "x" 0 w ≠ (inr tt, w)
  ∧ adminLog w' ≠ adminLog w
  ∧ ∃ state', loadLocalState E w' = (inr state', w') ∧ Apps state' !! "x" = None.
Proof.
  intros E w w'. split_and!.
  - exists (mkState 1 "unmanaged" true 80 443 {[ "x" := Scenario.app "x" 11000 100 ]}),
      (Scenario.app "x" 11000 100).
    split_and!; by vm_compute.
  - intros H. apply (f_equal (λ r, length (adminLog r.2))) in H.
    vm_compute in H. discriminate.
  - intros H. apply (f_equal length) in H. vm_compute in H. discriminate.
  - exists (mkState 1 "unmanaged" true 80 443 ∅). split; by vm_compute.
Qed.

(** C10.  With a PID that is not positive, [Release(n, pid)] does not look
    at the owner: whatever PID the lease records, the entry is deleted,
    the routes are reconciled from the remaining apps, and, when that
    reconciliation and the write go through, the state file holds the
    remaining apps, without [n]. *)
Theorem release_without_pid_deletes
    (E : Env) (n : string) (pid : Z) (w : World) (state : daemonState) (app : App) :
  flockOK E = true →
  loadLocalState E w = (inr state, w) →
  Apps state !! n = Some app →
  pid ≤ 0 →
  let rest := withApps state (delete n (Apps state)) in
  let w' := (releaseLeaseDirect E n pid w).2 in
  releaseLeaseDirect E n pid w = discard (reconcileAndSave E rest) w
  ∧ Apps rest !! n = None
  ∧ (∃ reqs, adminLog w' = adminLog w ++ reqs
             ∧ Forall (reconciles (Apps rest)) reqs)
  ∧ (stateFile w' = stateFile w ∨ stateFile w' = Document (marshalState rest))
  ∧ (∀ ports w1,
       applyRoutesViaAdmin E (Apps rest) w = (inr ports, w1) →
       tmpWrite E = WriteDone → renameOK E = true →
       stateFile w' = Document (marshalState rest)
       ∧ ∃ state', loadLocalState E w' = (inr state', w')
                   ∧ Apps state' = delete n (Apps state)).
Proof.
  intros Hflock Hload Hn Hpid rest w'.
  pose proof (releaseLeaseDirect_unguarded E n pid w state app Hflock Hload Hn Hpid)
    as Hrel.
  fold rest in Hrel.
  assert (Hw' : w' = (reconcileAndSave E rest w).2) by (unfold w'; by rewrite Hrel).
  pose proof (loadLocalState_dir _ _ _ _ Hload) as Hdir.
  clearbody w'. subst w'.
  destruct (reconcileAndSave_world E rest w) as (reqs & Hlog & HR & Hfile).
  split_and!; [done|apply lookup_delete_eq|by eauto|done|].
  intros ports w1 Happly Hwrite Hrename.
  destruct (reconcileAndSave_done E rest w ports w1 Hdir Happly Hwrite Hrename)
    as (reqs' & Hrun & _).
  rewrite Hrun. split; [done|].
  destruct (loadLocalState_saved E
              (mkWorld (Document (marshalState rest)) Absent (adminLog w ++ reqs'))
              rest Hdir eq_refl) as (state' & Hl' & Ha & _).
  by exists state'.
Qed.

Lemma release_without_pid_deletes_witness :
  let E := Scenario.env Scenario.caddyUp (λ pid, pid =? 100) in
  let w := Scenario.world {[ "x" := Scenario.app "x" 11000 100 ]} in
  let w' := (releaseLeaseDirect E "x" (-1) w).2 in
  ∃ state', loadLocalState E w' = (inr state', w') ∧ Apps state' !! "x" = None.
Proof.
  intros E w w'.
  set (state := mkState 1 "unmanaged" true 80 443 {[ "x" := Scenario.app "x" 11000 100 ]}).
  destruct (release_without_pid_deletes E "x" (-1) w state (Scenario.app "x" 11000 100))
    as (_ & _ & _ & _ & Hdone); [done|by vm_compute|by vm_compute|lia|].
  destruct (Hdone (80, 443) (applyRoutesViaAdmin E (delete "x" (Apps state)) w).2)
    as (_ & state' & Hload & Happs); [by vm_compute|done|done|].
  exists state'. split; [done|]. rewrite Happs. apply lookup_delete_eq.
Defined.

(** ** Eviction *)

Section StatusFacts.

Variable E : Env.

Lemma inspectExternalCaddy_adminOnly :
  adminOnly (λ req, readOnly req ∧ payload req = None) (inspectExternalCaddy E).
Proof.
  unfold inspectExternalCaddy. apply adminOnly_bind.
  { apply fetchExternalServers_adminOnly. }
  intros servers. apply adminOnly_bind; [apply adminOnly_lift|].
  intros [[[httpPort httpsPort] httpName] httpsName]. apply adminOnly_ret.
Qed.



End StatusFacts.

Lemma releaseLeaseDirect_cases (E : Env) (name : string) (pid : Z) (w : World) :
  releaseLeaseDirect E name pid w = (inr tt, w)
  ∨ ∃ state app,
      loadLocalState E w = (inr state, w)
      ∧ Apps state !! name = Some app
      ∧ (pid ≤ 0 ∨ PID app = pid)
      ∧ releaseLeaseDirect E name pid w =
          discard (reconcileAndSave E (withApps state (delete name (Apps state)))) w.
Proof.
  remember (releaseLeaseDirect E name pid w) as r eqn:Hr.
  unfold releaseLeaseDirect, withStateLock, discard in Hr.
  destruct (runtimeDirOK E) eqn:Hdir; simpl in Hr; [|by left].
  destruct (flockOK E) eqn:Hflock; simpl in Hr; [|by left].
  unfold bind at 1 in Hr.
  destruct (loadLocalState E w) as [[e|state] w0] eqn:Hload;
    pose proof (loadLocalState_eq _ _ _ _ Hload) as ->; [by left|].
  destruct (Apps state !! name) as [app|] eqn:Hname; [|by left].
  destruct ((0 <? pid) && negb (PID app =? pid)) eqn:Hguard; [by left|].
  right. exists state, app. split_and!; [done|done| |done].
  apply andb_false_iff in Hguard as [Hp|Hq]; [left; lia|right].
  apply negb_false_iff in Hq. lia.
Qed.

(** ** Route lists the control plane accepted *)











(** ** TLS policy synchronisation *)

Lemma keepForeignPolicies_cons policy rest out :
  keepForeignPolicies (policy :: rest) out =
  if isDevwrapPolicy policy then keepForeignPolicies rest out
  else keepForeignPolicies rest (out ++ [policy]).
Proof. by destruct policy. Qed.

Lemma keepForeignPolicies_filter existing out :
  keepForeignPolicies existing out = out ++ filter foreignPolicy existing.
Proof.
  revert out. induction existing as [|policy rest IH]; intros out.
  - simpl. by rewrite app_nil_r.
  - rewrite keepForeignPolicies_cons. destruct (isDevwrapPolicy policy) eqn:Hid.
    + rewrite IH, filter_cons_False; [done|].
      unfold foreignPolicy. by rewrite Hid.
    + rewrite IH, filter_cons_True, <- app_assoc; [done|].
      unfold foreignPolicy. by rewrite Hid.
Qed.

Lemma tlsSubjects_nil (apps : gmap string App) : tlsSubjects apps = [] ↔ apps = ∅.
Proof.
  unfold tlsSubjects. split.
  - intros Hnil.
    assert (Hel : elements (list_to_set (C := gset string)
              ((λ app, tlsSubjectForHost (Host app)) <$> (map_to_list apps).*2)) = []).
    { apply Permutation_nil_r. rewrite <- Hnil. by rewrite sortStrings_Permutation. }
    apply elements_empty_inv, leibniz_equiv in Hel.
    apply map_to_list_empty_iff.
    destruct (map_to_list apps) as [|[name app] rest]; [done|].
    exfalso. simpl in Hel.
    assert (tlsSubjectForHost (Host app) ∈ (∅ : gset string)) as Hin
      by (rewrite <- Hel; set_solver).
    by apply not_elem_of_empty in Hin.
  - intros ->. rewrite map_to_list_empty. simpl. by rewrite elements_empty.
Qed.

(** C9, as amended.  The subject set is empty exactly when there is no app.
    With an empty subject set and no automation policy list on the control
    plane (the query answers 404), the synchronisation sends the query and
    nothing else, and succeeds.  When a policy list exists, the
    synchronisation writes it back without the policy of devwrap, an empty
    subject set included. *)
Theorem tls_sync_without_subjects (E : Env) (apps : gmap string App) (w : World) :
  let query := mkReq GET policiesPath None in
  (tlsSubjects apps = [] ↔ apps = ∅)
  ∧ (∀ text json,
       tlsSubjects apps = [] →
       caddy E (adminLog w) query = HTTPResponse 404 text json →
       syncDevwrapInternalTLSPolicy E apps w =
         (inr tt, mkWorld (stateFile w) (stateTmp w) (adminLog w ++ [query])))
  ∧ (∀ status text policies,
       tlsSubjects apps = [] →
       caddy E (adminLog w) query = HTTPResponse status text (Some (AArr policies)) →
       status < 300 →
       ∃ more,
         adminLog (syncDevwrapInternalTLSPolicy E apps w).2 =
           adminLog w
           ++ query
              :: mkReq PATCH policiesPath (Some (AArr (filter foreignPolicy policies)))
              :: more).
Proof.
  intros query. split_and!.
  - apply tlsSubjects_nil.
  - intros text json Hnil Hreply.
    unfold syncDevwrapInternalTLSPolicy, fetchTLSAutomationPolicies, adminGet.
    unfold bind, send. fold query. rewrite Hreply. cbn. by rewrite Hnil.
  - intros status text policies Hnil Hreply Hstatus.
    unfold syncDevwrapInternalTLSPolicy, fetchTLSAutomationPolicies, adminGet.
    unfold bind at 1 2. unfold send at 1. fold query. rewrite Hreply.
    destruct (status =? 404) eqn:H404; [lia|].
    destruct (300 <=? status) eqn:H300; [lia|].
    cbn [ret]. rewrite Hnil.
    unfold mergeDevwrapInternalTLSPolicy. cbn [length Nat.ltb Nat.leb].
    rewrite keepForeignPolicies_filter. cbn [app].
    unfold putTLSAutomationPolicies, adminDoJSON, bind, send. cbn [adminLog].
    set (patch := mkReq PATCH policiesPath (Some (AArr (filter foreignPolicy policies)))).
    destruct (caddy E ((adminLog w ++ [query])) patch) as [|st txt js].
    + exists []. cbn. by rewrite <- app_assoc.
    + destruct (300 <=? st).
      * cbn [discard snd adminLog stateFile stateTmp].
        match goal with
        | |- context [caddy E ?log ?req] =>
            destruct (caddy E log req) as [|st2 txt2 js2]
        end.
        -- eexists. cbn. rewrite <- !app_assoc. reflexivity.
        -- destruct (st2 <? 300); eexists; cbn; rewrite <- !app_assoc; reflexivity.
      * exists []. cbn. by rewrite <- app_assoc.
Qed.

Lemma tls_sync_without_subjects_witness :
  let E := Scenario.env Scenario.caddyUp (λ pid, pid =? 100) in
  syncDevwrapInternalTLSPolicy E ∅ Scenario.empty =
    (inr tt, mkWorld Absent Absent [mkReq GET policiesPath None]).
Proof.
  intros E.
  destruct (tls_sync_without_subjects E ∅ Scenario.empty) as (_ & Hquiet & _).
  apply (Hquiet "" None); by vm_compute.
Defined.

(** C9, as stated, fails when the control plane already has a policy list:
    there is no app, the subject set is empty, and the synchronisation still
    sends a PATCH (the list without the policy of devwrap). *)
Lemma tls_sync_writes_counterexample :
  let E := Scenario.env Scenario.caddyWithPolicies (λ pid, pid =? 100) in
  tlsSubjects ∅ = []
  ∧ syncDevwrapInternalTLSPolicy E ∅ Scenario.empty =
      (inr tt, mkWorld Absent Absent
                 [ mkReq GET policiesPath None;
                   mkReq PATCH policiesPath (Some (AArr [])) ]).
Proof. intros E. split; by vm_compute. Qed.

(** ** Loading the state *)

(** C7, as amended.  Loading never looks at the version: a state document
    that parses is returned without an error, with the version it carries (1
    when it carries none) and the apps it carries, and members that are no
    fields of the state are ignored. *)
Theorem load_keeps_any_version (E : Env) (w : World) (d : stateDoc) :
  runtimeDirOK E = true →
  stateFile w = Document d →
  ∃ state,
    loadLocalState E w = (inr state, w)
    ∧ Version state = default 1 (doc_version d)
    ∧ Apps state = default ∅ (doc_apps d)
    ∧ ∀ other,
        loadLocalState E (mkWorld (Document (withOther d other)) (stateTmp w) (adminLog w))
        = (inr state, mkWorld (Document (withOther d other)) (stateTmp w) (adminLog w)).
Proof.
  intros Hdir Hfile. unfold loadLocalState, statePath, bind. rewrite Hdir.
  cbn [ret]. rewrite Hfile. eexists. split; [reflexivity|]. split_and!.
  - by repeat match goal with |- context [if ?b then _ else _] => destruct b end.
  - assert (Happs : Apps (unmarshalState d defaultState) = default ∅ (doc_apps d)).
    { unfold unmarshalState. cbn. destruct (doc_apps d); [|done].
      apply (right_id_L ∅ (∪)). }
    by repeat match goal with |- context [if ?b then _ else _] => destruct b end.
  - intros other. reflexivity.
Qed.

Lemma load_keeps_any_version_witness :
  let E := Scenario.env Scenario.caddyUp (λ pid, pid =? 100) in
  let d := mkDoc (Some 7) None None None None None [("theme", AStr "dark")] in
  ∃ state, loadLocalState E (mkWorld (Document d) Absent []) =
             (inr state, mkWorld (Document d) Absent [])
           ∧ Version state = 7.
Proof.
  intros E d.
  destruct (load_keeps_any_version E (mkWorld (Document d) Absent []) d)
    as (state & Hload & Hversion & _); [done|done|].
  by exists state.
Defined.

(** C7, as stated, fails: the document carries version 2, the loader
    supports version 1 and has no migration, and the load succeeds with a
    state of version 2. *)
Lemma load_version_mismatch_counterexample :
  let E := Scenario.env Scenario.caddyUp (λ pid, pid =? 100) in
  let d := mkDoc (Some 2) (Some "unmanaged") (Some true) (Some 80) (Some 443)
                 (Some {[ "x" := Scenario.app "x" 11000 100 ]}) [] in
  Version (defaultState) = 1
  ∧ doc_version d = Some 2
  ∧ loadLocalState E (mkWorld (Document d) Absent []) =
      (inr (mkState 2 "unmanaged" true 80 443 {[ "x" := Scenario.app "x" 11000 100 ]}),
       mkWorld (Document d) Absent []).
Proof. intros E d. split_and!; by vm_compute. Qed.

(** ** Custom hosts *)

(** A lease created for a name that has no live entry gets the host
    [<name>.localhost], whatever host was asked for. *)
Lemma new_lease_host (E : Env) (name host : string) (pid : Z) (w w' : World)
    (lease : Lease) (state : daemonState) :
  loadLocalState E w = (inr state, w) →
  evictDead E (Apps state) !! name = None →
  acquireLease E name host pid w = (inr lease, w') →
  lease_Host lease = name +:+ ".localhost".
Proof.
  intros Hload Hnew Hrun. unfold acquireLease in Hrun.
  apply requestLeaseDirect_inv in Hrun
    as (state0 & app & hp & hsp & Hload0 & Happ & _ & _ & Hhost & _).
  rewrite Hload in Hload0. injection Hload0 as <-.
  unfold leasedApp in Happ. rewrite Hnew in Happ.
  destruct Happ as (port & _ & ->). done.
Qed.

(** C6.  The custom host web.dev.test passes validation, and the lease that
    [acquireLease] creates for it has the host web.localhost: the URLs and
    the state file carry the default host, the custom one is lost.  The
    host api-.dev.test is rejected by [runApp] before anything else
    happens: no request, no port, no state. *)
Theorem custom_host_is_dropped :
  let E := Scenario.env Scenario.caddyUp (λ pid, pid =? 100) in
  let stored := mkApp "web" "web.localhost" 11000 100 (nowRFC3339 E) in
  hostForApp "web" "web.dev.test" = inr "web.dev.test"
  ∧ (acquireLease E "web" "web.dev.test" 100 Scenario.empty).1 =
      inr (mkLease "web" "web.localhost" 11000 "http://web.localhost"
                   "https://web.localhost" false)
  ∧ stateFile (acquireLease E "web" "web.dev.test" 100 Scenario.empty).2 =
      savedState 80 443 {[ "web" := stored ]}
  ∧ hostForApp "api" "api-.dev.test" =
      inl (ErrHost "host labels cannot start or end with '-'")
  ∧ ∀ ensure privileged,
      runApp E ensure "api" "api-.dev.test" privileged 100 Scenario.empty =
        (inl (ErrHost "host labels cannot start or end with '-'"), Scenario.empty).
Proof.
  intros E stored. split_and!; vm_compute; reflexivity.
Qed.

(** * Further properties *)

(** ** Decimal numbers *)

Lemma digitValue_pretty_N_char (d : N) :
  (d < 10)%N → Strings.digitValue (pretty_N_char d) = Some (Z.of_N d).
Proof.
  intros Hd.
  assert (d = 0 ∨ d = 1 ∨ d = 2 ∨ d = 3 ∨ d = 4 ∨ d = 5 ∨ d = 6 ∨ d = 7
          ∨ d = 8 ∨ d = 9)%N as Hcases by lia.
  repeat (destruct Hcases as [->|Hcases]; [reflexivity|]). by subst.
Qed.

(** Reading the digits that [pretty_N_go] puts in front of [s]. *)
Lemma digitsValue_pretty_N_go (x : N) (s : string) :
  ∃ k, 0 < k ∧ ∀ acc,
    Strings.digitsValue acc (pretty_N_go x s) =
    Strings.digitsValue (acc * k + Z.of_N x) s.
Proof.
  revert s. induction (N.lt_wf_0 x) as [x _ IH]; intros s.
  assert (x = 0 ∨ 0 < x)%N as [->|Hpos] by lia.
  - exists 1. split; [lia|]. intros acc. rewrite pretty_N_go_0. f_equal. lia.
  - rewrite pretty_N_go_step by done.
    destruct (IH (x `div` 10)%N (N.div_lt x 10 Hpos eq_refl)
                (String (pretty_N_char (x `mod` 10)) s)) as (k & Hk & Hread).
    exists (k * 10). split; [lia|]. intros acc. rewrite Hread. simpl.
    rewrite digitValue_pretty_N_char by (apply N.mod_lt; lia). f_equal.
    rewrite N2Z.inj_div, N2Z.inj_mod.
    pose proof (Z.div_mod (Z.of_N x) 10) as Hdm. change (Z.of_N 10) with 10.
    set (q := Z.of_N x `div` 10) in *. set (r := Z.of_N x `mod` 10) in *.
    rewrite Hdm by lia. ring.
Qed.

Lemma pretty_N_go_nonempty (x : N) (s : string) :
  (0 < x)%N → pretty_N_go x s ≠ "".
Proof.
  revert s. induction (N.lt_wf_0 x) as [x _ IH]; intros s Hpos.
  rewrite pretty_N_go_step by done.
  destruct (N.eq_0_gt_0_cases (x `div` 10)) as [->|Hq].
  - by rewrite pretty_N_go_0.
  - apply IH; [by apply N.div_lt|done].
Qed.

Lemma allRunes_pretty_N_go (p : ascii → bool) (x : N) (s : string) :
  (∀ d, (d < 10)%N → p (pretty_N_char d) = true) →
  allRunes p s = true → allRunes p (pretty_N_go x s) = true.
Proof.
  intros Hp. revert s. induction (N.lt_wf_0 x) as [x _ IH]; intros s Hs.
  assert (x = 0 ∨ 0 < x)%N as [->|Hpos] by lia.
  - by rewrite pretty_N_go_0.
  - rewrite pretty_N_go_step by done. apply IH; [by apply N.div_lt|].
    simpl. rewrite Hp by (apply N.mod_lt; lia). done.
Qed.

Lemma pretty_N_char_digit (d : N) : (d < 10)%N → isDigit (pretty_N_char d) = true.
Proof.
  intros Hd. unfold isDigit. by rewrite digitValue_pretty_N_char.
Qed.

(** The decimal text of a natural number: digits only, not empty, and it
    reads back as the number. *)
Lemma pretty_N_spec (x : N) :
  allRunes isDigit (pretty x) = true
  ∧ pretty x ≠ ""
  ∧ Strings.digitsValue 0 (pretty x) = Some (Z.of_N x).
Proof.
  unfold pretty, pretty_N. case_decide as Hx.
  - subst. done.
  - split_and!.
    + apply allRunes_pretty_N_go; [apply pretty_N_char_digit|done].
    + apply pretty_N_go_nonempty. lia.
    + destruct (digitsValue_pretty_N_go x "") as (k & _ & Hread).
      rewrite Hread. simpl. f_equal.
Qed.

Lemma first_digit_not_sign (s : string) (c : ascii) (r : string) :
  allRunes isDigit s = true → s = String c r →
  Ascii.eqb c "-" = false ∧ Ascii.eqb c "+" = false.
Proof.
  intros Hs ->. simpl in Hs. destruct (isDigit c) eqn:Hc; [|done].
  unfold isDigit, Strings.digitValue in Hc.
  split; apply Ascii.eqb_neq; intros ->; done.
Qed.

Lemma Atoi_digits (s : string) (v : Z) :
  allRunes isDigit s = true → s ≠ "" →
  Strings.digitsValue 0 s = Some v →
  Strings.Atoi s = Z.max Strings.minInt (Z.min Strings.maxInt v).
Proof.
  intros Hdigits Hne Hread. destruct s as [|c r]; [done|].
  destruct (first_digit_not_sign _ c r Hdigits eq_refl) as [Hm Hp].
  unfold Strings.Atoi. rewrite Hm, Hp, Hread. done.
Qed.

Lemma Atoi_minus (s : string) (v : Z) :
  s ≠ "" → Strings.digitsValue 0 s = Some v →
  Strings.Atoi (String "-" s) = Z.max Strings.minInt (Z.min Strings.maxInt (- v)).
Proof.
  intros Hne Hread. unfold Strings.Atoi.
  change (Ascii.eqb "-" "-") with true. cbv iota beta.
  destruct s as [|c r]; [done|]. rewrite Hread. done.
Qed.

(** [strconv.Atoi] reads back what [strconv.Itoa] writes, for every
    number of the 64-bit range. *)
Lemma Atoi_Itoa (n : Z) :
  Strings.minInt ≤ n ≤ Strings.maxInt → Strings.Atoi (Strings.Itoa n) = n.
Proof.
  intros Hrange. unfold Strings.Itoa, pretty, pretty_Z.
  destruct n as [|p|p].
  - reflexivity.
  - destruct (pretty_N_spec (N.pos p)) as (Hdigits & Hne & Hread).
    change (pretty (N.pos p)) with (pretty p) in *.
    rewrite (Atoi_digits _ _ Hdigits Hne Hread). simpl Z.of_N. lia.
  - destruct (pretty_N_spec (N.pos p)) as (Hdigits & Hne & Hread).
    change (pretty (N.pos p)) with (pretty p) in *.
    change ("-" +:+ pretty p) with (String "-" (pretty p)).
    rewrite (Atoi_minus _ _ Hne Hread). simpl Z.of_N. lia.
Qed.

(** ** The embedded configuration, read back *)

Lemma substring_all (s : string) : String.substring 0 (String.length s) s = s.
Proof. induction s as [|c s IH]; [done|]. simpl. by rewrite IH. Qed.

Lemma parseListenPort_colon (n : Z) :
  Strings.minInt ≤ n ≤ Strings.maxInt →
  parseListenPort (":" +:+ Strings.Itoa n) = n.
Proof.
  intros Hn. unfold parseListenPort, Strings.TrimPrefix.
  change (":" +:+ Strings.Itoa n) with (String ":" (Strings.Itoa n)).
  change (Strings.HasPrefix (String ":" (Strings.Itoa n)) ":") with true.
  cbv iota. cbn [String.length].
  replace (S (String.length (Strings.Itoa n)) - 1)%nat
    with (String.length (Strings.Itoa n)) by lia.
  cbn [String.substring]. rewrite substring_all. by apply Atoi_Itoa.
Qed.

Lemma firstListenPort_colon (n : Z) (rest : list (string * any)) (more : list any) :
  Strings.minInt ≤ n ≤ Strings.maxInt →
  firstListenPort (("listen", AArr (AStr (":" +:+ Strings.Itoa n) :: more)) :: rest) = n.
Proof.
  intros Hn. pose proof (parseListenPort_colon n Hn) as Hparse.
  unfold parseListenPort in Hparse. unfold firstListenPort.
  cbn [mapIndex String.eqb Ascii.eqb Bool.eqb]. exact Hparse.
Qed.

(** X11.  The topology resolver reads back the ports the embedded proxy
    was configured with, and selects its two reserved servers: for
    positive ports of the 64-bit range, parsing the servers of the
    configuration loaded by [startEmbeddedCaddy] gives (httpPort, httpsPort,
    devwrap-http, devwrap-https). *)
Theorem embedded_config_reads_back (httpPort httpsPort : Z) :
  0 < httpPort ≤ Strings.maxInt →
  0 < httpsPort ≤ Strings.maxInt →
  parseExternalServers (collectServers (embeddedServers httpPort httpsPort)) =
    inr (httpPort, httpsPort, "devwrap-http", "devwrap-https").
Proof.
  intros Hhttp Hhttps. unfold embeddedServers, collectServers.
  cbn [omap list_omap fst snd list_to_map foldr uncurry].
  unfold parseExternalServers.
  rewrite lookup_insert_eq, lookup_insert_ne, lookup_insert_eq by done.
  rewrite !firstListenPort_colon by (unfold Strings.minInt; lia).
  destruct (httpPort =? 0) eqn:H0; [lia|].
  destruct (0 <? httpsPort) eqn:Hs; [done|lia].
Qed.

Lemma embedded_config_reads_back_witness :
  parseExternalServers (collectServers (embeddedServers 8080 8443)) =
    inr (8080, 8443, "devwrap-http", "devwrap-https").
Proof.
  apply embedded_config_reads_back; unfold Strings.maxInt; lia.
Defined.

(** ** Listener ports of the managed proxy *)

(** X12.  [chooseProxyPorts] returns only a pair whose two ports are free;
    80/443 is returned, and flagged as privileged, only for root; the
    fallback pair is taken only when the preferred pair is not free; and
    the choice fails exactly when both candidate pairs of the caller are
    blocked. *)
Theorem chooseProxyPorts_spec (portFree : Z → bool) (isRoot : bool) :
  let free h s := portsAvailable portFree h s = true in
  match chooseProxyPorts portFree isRoot with
  | inr (h, s, privileged) =>
      portFree h = true ∧ portFree s = true
      ∧ (privileged = true ↔ (h = 80 ∧ s = 443))
      ∧ ((isRoot = true ∧ h = 80 ∧ s = 443)
         ∨ (isRoot = true ∧ h = 8080 ∧ s = 8443 ∧ ¬ free 80 443)
         ∨ (isRoot = false ∧ h = 8080 ∧ s = 8443)
         ∨ (isRoot = false ∧ h = 9080 ∧ s = 9443 ∧ ¬ free 8080 8443))
  | inl _ =>
      if isRoot then ¬ free 80 443 ∧ ¬ free 8080 8443
      else ¬ free 8080 8443 ∧ ¬ free 9080 9443
  end.
Proof.
  intros free. unfold chooseProxyPorts, free.
  destruct isRoot;
    repeat match goal with
    | |- context [portsAvailable portFree ?h ?s] =>
        let H := fresh "H" in
        destruct (portsAvailable portFree h s) eqn:H;
        [apply andb_true_iff in H as [? ?]|]
    end;
    split_and?; try done; try (split; [done|intros [? ?]; lia]); try tauto;
    try (intros Hfalse; congruence); naive_solver.
Qed.

(** ** Templates in the child's arguments *)

Lemma Contains_cons (c : ascii) (r sub : string) :
  Strings.Contains (String c r) sub =
  Strings.startsWith sub (String c r) || Strings.Contains r sub.
Proof. reflexivity. Qed.

Lemma startsWith_cons (a b : ascii) (p s : string) :
  Strings.startsWith (String a p) (String b s) =
  Ascii.eqb a b && Strings.startsWith p s.
Proof. reflexivity. Qed.

Section Replace.

Variable new : string.
Hypothesis new_plain : allRunes plainByte new = true.
Hypothesis new_nonempty : new ≠ "".

Lemma startsWith_new (q rest : string) (c : ascii) :
  placeholderByte c = true →
  Strings.startsWith (String c q) (new +:+ rest) = false.
Proof.
  intros Hc. destruct new as [|v1 v']; [done|].
  change (String v1 v' +:+ rest) with (String v1 (v' +:+ rest)).
  rewrite startsWith_cons.
  simpl in new_plain. destruct (plainByte v1) eqn:Hv; [|done].
  destruct (Ascii.eqb c v1) eqn:Heq; [|done].
  apply Ascii.eqb_eq in Heq as ->. unfold plainByte in Hv. by rewrite Hc in Hv.
Qed.

(** A run of placeholder bytes at the head of the output was already at the
    head of the input. *)
Lemma startsWith_replaceGo (q s : string) :
  allRunes placeholderByte q = true →
  Strings.startsWith q (replaceGo "@PORT" new 0 s) = true →
  Strings.startsWith q s = true.
Proof.
  revert s. induction q as [|c q IH]; intros s Hq Hout; [done|].
  simpl in Hq. destruct (placeholderByte c) eqn:Hc; [|done].
  destruct s as [|c2 r]; [done|]. cbn [replaceGo] in Hout.
  destruct (Strings.startsWith "@PORT" (String c2 r)) eqn:Hocc.
  - by rewrite startsWith_new in Hout.
  - rewrite startsWith_cons in Hout |- *.
    apply andb_true_iff in Hout as [-> Hrest]. simpl. by apply IH.
Qed.

Lemma replaceGo_head (s : string) :
  Strings.startsWith "@PORT" (replaceGo "@PORT" new 0 s) = false.
Proof.
  destruct (Strings.startsWith "@PORT" (replaceGo "@PORT" new 0 s)) eqn:Hout;
    [|done].
  pose proof (startsWith_replaceGo "@PORT" s eq_refl Hout) as Hin.
  destruct s as [|c r]; [done|]. cbn [replaceGo] in Hout. rewrite Hin in Hout.
  by rewrite startsWith_new in Hout.
Qed.

Lemma Contains_new (rest : string) :
  Strings.Contains (new +:+ rest) "@PORT" = Strings.Contains rest "@PORT".
Proof.
  clear new_nonempty. induction new as [|v1 v' IH]; [done|].
  simpl in new_plain. destruct (plainByte v1) eqn:Hv; [|done].
  change (String v1 v' +:+ rest) with (String v1 (v' +:+ rest)).
  rewrite Contains_cons, IH by done.
  replace (Strings.startsWith "@PORT" (String v1 (v' +:+ rest))) with false;
    [done|].
  change "@PORT" with (String "@"%char "PORT").
  rewrite startsWith_cons. destruct (Ascii.eqb "@" v1) eqn:Heq; [|done].
  apply Ascii.eqb_eq in Heq as <-. done.
Qed.

Lemma replaceGo_clean (skip : nat) (s : string) :
  Strings.Contains (replaceGo "@PORT" new skip s) "@PORT" = false.
Proof.
  revert skip. induction s as [|c r IH]; intros skip; [done|].
  destruct skip as [|k]; [|apply IH].
  pose proof (replaceGo_head (String c r)) as Hhead.
  cbn [replaceGo] in Hhead |- *.
  destruct (Strings.startsWith "@PORT" (String c r)).
  - rewrite Contains_new. apply IH.
  - by rewrite Contains_cons, Hhead, IH.
Qed.

Lemma replaceGo_id (s : string) :
  Strings.Contains s "@PORT" = false → replaceGo "@PORT" new 0 s = s.
Proof.
  induction s as [|c r IH]; [done|]. rewrite Contains_cons. cbn [replaceGo].
  intros [Hhead Htail]%orb_false_iff. rewrite Hhead. by rewrite IH.
Qed.

End Replace.

Lemma append_empty_r (s : string) : s +:+ "" = s.
Proof.
  induction s as [|c s IH]; [done|].
  change (String c s +:+ "") with (String c (s +:+ "")). by rewrite IH.
Qed.

Lemma Itoa_plain (n : Z) :
  allRunes plainByte (Strings.Itoa n) = true ∧ Strings.Itoa n ≠ "".
Proof.
  assert (Hchar : ∀ d, (d < 10)%N → plainByte (pretty_N_char d) = true).
  { intros d Hd.
    assert (d = 0 ∨ d = 1 ∨ d = 2 ∨ d = 3 ∨ d = 4 ∨ d = 5 ∨ d = 6 ∨ d = 7
            ∨ d = 8 ∨ d = 9)%N as Hcases by lia.
    repeat (destruct Hcases as [->|Hcases]; [reflexivity|]). by subst. }
  assert (Hpos : ∀ p : positive,
            allRunes plainByte (pretty p) = true ∧ pretty p ≠ "").
  { intros p. change (pretty p) with (pretty (N.pos p)).
    unfold pretty, pretty_N. case_decide; [done|]. split.
    - by apply allRunes_pretty_N_go.
    - apply pretty_N_go_nonempty. lia. }
  unfold Strings.Itoa, pretty, pretty_Z. destruct n as [|p|p]; [done|apply Hpos|].
  destruct (Hpos p) as [Hp _]. split; [|done].
  change ("-" +:+ pretty p) with (String "-" (pretty p)). simpl. exact Hp.
Qed.

(** X14.  After templating no argument holds the placeholder [@PORT],
    the arguments keep their number and positions, and an argument without
    the placeholder is passed on as it is. *)
Theorem applyTemplates_spec (args : list string) (port : Z) :
  length (applyTemplates args port) = length args
  ∧ Forall (λ arg, Strings.Contains arg "@PORT" = false) (applyTemplates args port)
  ∧ (∀ i arg, args !! i = Some arg →
       Strings.Contains arg "@PORT" = false →
       applyTemplates args port !! i = Some arg)
  ∧ (∀ i, args !! i = Some "@PORT" →
       applyTemplates args port !! i = Some (Strings.Itoa port)).
Proof.
  destruct (Itoa_plain port) as [Hplain Hne]. unfold applyTemplates. split_and!.
  - by rewrite length_fmap.
  - apply Forall_fmap, Forall_forall. intros arg _. simpl.
    by apply replaceGo_clean.
  - intros i arg Hi Hclean. rewrite list_lookup_fmap, Hi. simpl.
    unfold ReplaceAll. by rewrite replaceGo_id.
  - intros i Hi. rewrite list_lookup_fmap, Hi. simpl. unfold ReplaceAll.
    cbn [replaceGo Strings.startsWith Ascii.eqb Bool.eqb andb String.length Nat.sub].
    by rewrite append_empty_r.
Qed.

(** ** Host names *)

Lemma allRunes_rev_app (p : ascii → bool) (s t : string) :
  allRunes p (String.rev_app s t) = allRunes p s && allRunes p t.
Proof.
  revert t. induction s as [|c s IH]; intros t; [done|].
  cbn [String.rev_app]. rewrite IH. simpl.
  destruct (p c), (allRunes p s), (allRunes p t); done.
Qed.

Lemma allRunes_rev (p : ascii → bool) (s : string) :
  allRunes p (String.rev s) = allRunes p s.
Proof. unfold String.rev. rewrite allRunes_rev_app. simpl. apply andb_true_r. Qed.

Lemma allRunes_app (p : ascii → bool) (s t : string) :
  allRunes p (s +:+ t) = allRunes p s && allRunes p t.
Proof.
  induction s as [|c s IH]; [done|].
  change (String c s +:+ t) with (String c (s +:+ t)). simpl. rewrite IH.
  by destruct (p c).
Qed.

Lemma allRunes_impl (p q : ascii → bool) (s : string) :
  (∀ c, p c = true → q c = true) → allRunes p s = true → allRunes q s = true.
Proof.
  intros Hpq. induction s as [|c s IH]; [done|]. simpl.
  destruct (p c) eqn:Hc; [|done]. rewrite (Hpq c Hc). exact IH.
Qed.

Lemma rev_app_rev_app (s t u : string) :
  String.rev_app (String.rev_app s t) u = String.rev_app t (s +:+ u).
Proof.
  revert t u. induction s as [|c s IH]; intros t u; [done|].
  cbn [String.rev_app]. rewrite IH. done.
Qed.

Lemma rev_rev (s : string) : String.rev (String.rev s) = s.
Proof.
  unfold String.rev. rewrite rev_app_rev_app. simpl. apply append_empty_r.
Qed.

Lemma rev_app_append (s t u : string) :
  String.rev_app (s +:+ t) u = String.rev_app t (String.rev_app s u).
Proof.
  revert u. induction s as [|c s IH]; intros u; [done|].
  change (String c s +:+ t) with (String c (s +:+ t)). cbn [String.rev_app].
  by rewrite IH.
Qed.

Lemma hostByte_no_space (c : ascii) : hostByte c = true → Strings.isSpace c = false.
Proof.
  unfold hostByte, hostRune, Strings.isSpace. destruct c as [[] [] [] [] [] [] [] []];
    by vm_compute.
Qed.

Lemma hostByte_lower (c : ascii) : hostByte c = true → Strings.lowerByte c = c.
Proof.
  unfold hostByte, hostRune, Strings.lowerByte, Strings.isUpper.
  destruct c as [[] [] [] [] [] [] [] []]; by vm_compute.
Qed.

Lemma trimLeft_id (s : string) :
  allRunes hostByte s = true → Strings.trimLeft s = s.
Proof.
  destruct s as [|c s]; [done|]. simpl. destruct (hostByte c) eqn:Hc; [|done].
  by rewrite (hostByte_no_space c Hc).
Qed.

Lemma TrimSpace_id (s : string) :
  allRunes hostByte s = true → Strings.TrimSpace s = s.
Proof.
  intros Hs. unfold Strings.TrimSpace. rewrite (trimLeft_id s Hs).
  rewrite trimLeft_id by (by rewrite allRunes_rev). apply rev_rev.
Qed.

Lemma ToLower_id (s : string) :
  allRunes hostByte s = true → Strings.ToLower s = s.
Proof.
  induction s as [|c s IH]; [done|]. simpl. destruct (hostByte c) eqn:Hc; [|done].
  intros Hs. by rewrite (hostByte_lower c Hc), IH.
Qed.

(** The first piece of a split starts with what was collected so far. *)
Lemma splitGo_head (sep : ascii) (cur s : string) :
  ∃ pre rest, Strings.splitGo sep cur s = String.rev_app cur pre :: rest.
Proof.
  revert cur. induction s as [|c r IH]; intros cur.
  - by exists "", [].
  - simpl. destruct (Ascii.eqb c sep).
    + by exists "", (Strings.splitGo sep "" r).
    + destruct (IH (String c cur)) as (pre & rest & ->).
      by exists (String c pre), rest.
Qed.

Lemma splitGo_allRunes (p : ascii → bool) (sep : ascii) (cur s : string) :
  Forall (λ piece, allRunes p piece = true) (Strings.splitGo sep cur s) →
  allRunes (λ c, p c || Ascii.eqb c sep) s = true.
Proof.
  revert cur. induction s as [|c r IH]; intros cur Hall; [done|].
  simpl in Hall |- *. destruct (Ascii.eqb c sep) eqn:Hsep.
  - rewrite orb_true_r. apply Forall_cons in Hall as [_ Hrest]. by eapply IH.
  - rewrite orb_false_r.
    destruct (splitGo_head sep (String c cur) r) as (pre & rest & Hsplit).
    pose proof Hall as Hfirst. rewrite Hsplit in Hfirst.
    apply Forall_cons in Hfirst as [Hfirst _].
    cbn [String.rev_app] in Hfirst.
    rewrite allRunes_rev_app in Hfirst. apply andb_true_iff in Hfirst as [_ Hc].
    simpl in Hc. destruct (p c); [|done]. by eapply IH.
Qed.

Lemma checkLabels_None (labels : list string) :
  checkLabels labels = None ↔ Forall goodLabel labels.
Proof.
  induction labels as [|label rest IH]; [by split|].
  cbn [checkLabels]. rewrite Forall_cons, <- IH. unfold goodLabel.
  destruct (String.eqb_spec label "") as [->|Hne].
  { split; [done|]. by intros [[? _] _]. }
  destruct (isDash (firstByte label)).
  { split; [done|]. by intros [(_ & ? & _) _]. }
  destruct (isDash (lastByte label)).
  { split; [done|]. by intros [(_ & _ & ? & _) _]. }
  destruct (allRunes hostRune label).
  - split; [by intros ?|by intros [_ ?]].
  - split; [done|]. by intros [(_ & _ & _ & ?) _].
Qed.

(** X5.  A host that [normalizeHost] accepts is the trimmed, lower-cased
    input; it holds only a-z, 0-9, dashes and dots; every label between
    dots is non-empty and neither starts nor ends with a dash; and
    normalising it again returns it unchanged. *)
Theorem normalizeHost_accepts_canonical (raw host : string) :
  normalizeHost raw = inr host →
  host = Strings.ToLower (Strings.TrimSpace raw)
  ∧ host ≠ ""
  ∧ allRunes hostByte host = true
  ∧ Forall goodLabel (Strings.Split host ".")
  ∧ normalizeHost host = inr host.
Proof.
  intros Hraw.
  assert (Hbody : ∀ h, normalizeHost h =
            let host := Strings.ToLower (Strings.TrimSpace h) in
            if String.eqb host "" then inl (ErrHost "host cannot be empty")
            else if Strings.Contains host "://"
            then inl (ErrHost "host must be a hostname without scheme")
            else if Strings.Contains host "/"
            then inl (ErrHost "host must not include a path")
            else if Strings.Contains host ":"
            then inl (ErrHost "host must not include a port")
            else if Strings.HasPrefix host "." || Strings.HasSuffix host "."
                    || Strings.Contains host ".."
            then inl (ErrHost "host format is invalid")
            else match checkLabels (Strings.Split host ".") with
                 | Some err => inl err
                 | None => inr host
                 end) by reflexivity.
  pose proof Hraw as Hraw'. rewrite Hbody in Hraw'. cbv zeta in Hraw'.
  set (h := Strings.ToLower (Strings.TrimSpace raw)) in *.
  destruct (String.eqb_spec h "") as [|Hne]; [done|].
  destruct (Strings.Contains h "://"); [done|].
  destruct (Strings.Contains h "/"); [done|].
  destruct (Strings.Contains h ":"); [done|].
  destruct (_ || _); [done|].
  destruct (checkLabels (Strings.Split h ".")) as [err|] eqn:Hlabels; [done|].
  injection Hraw' as <-.
  apply checkLabels_None in Hlabels.
  assert (Hbytes : allRunes hostByte h = true).
  { unfold hostByte. apply (splitGo_allRunes hostRune "." "" h).
    eapply Forall_impl; [exact Hlabels|]. by intros label (_ & _ & _ & ?). }
  split_and!; try done.
  assert (Hfix : Strings.ToLower (Strings.TrimSpace h) = h)
    by (by rewrite TrimSpace_id, ToLower_id).
  rewrite Hbody. cbv zeta. rewrite Hfix. fold h in Hraw.
  rewrite Hbody in Hraw. exact Hraw.
Qed.

Lemma Contains_absent (p : ascii → bool) (s q : string) (c : ascii) :
  allRunes p s = true → p c = false → Strings.Contains s (String c q) = false.
Proof.
  intros Hs Hc. induction s as [|d s IH]; [done|].
  simpl in Hs. destruct (p d) eqn:Hd; [|done].
  rewrite Contains_cons, startsWith_cons, IH by done.
  destruct (Ascii.eqb c d) eqn:Heq; [|done].
  apply Ascii.eqb_eq in Heq as ->. congruence.
Qed.

Lemma Contains_after (p : ascii → bool) (s rest q : string) (c : ascii) :
  allRunes p s = true → p c = false →
  Strings.Contains (s +:+ rest) (String c q) = Strings.Contains rest (String c q).
Proof.
  intros Hs Hc. induction s as [|d s IH]; [done|].
  simpl in Hs. destruct (p d) eqn:Hd; [|done].
  change (String d s +:+ rest) with (String d (s +:+ rest)).
  rewrite Contains_cons, startsWith_cons, IH by done.
  destruct (Ascii.eqb c d) eqn:Heq; [|done].
  apply Ascii.eqb_eq in Heq as ->. congruence.
Qed.

Lemma splitGo_before (p : ascii → bool) (sep : ascii) (cur s t : string) :
  allRunes p s = true → p sep = false →
  Strings.splitGo sep cur (s +:+ t) = Strings.splitGo sep (String.rev_app s cur) t.
Proof.
  intros Hs Hsep. revert cur. induction s as [|d s IH]; intros cur; [done|].
  simpl in Hs. destruct (p d) eqn:Hd; [|done].
  change (String d s +:+ t) with (String d (s +:+ t)). cbn [Strings.splitGo].
  destruct (Ascii.eqb d sep) eqn:Heq.
  - apply Ascii.eqb_eq in Heq as ->. congruence.
  - by rewrite IH.
Qed.

Lemma IndexByte_before (p : ascii → bool) (sep : ascii) (s t : string) :
  allRunes p s = true → p sep = false →
  Strings.IndexByte (s +:+ String sep t) sep = Some (String.length s).
Proof.
  intros Hs Hsep. induction s as [|d s IH].
  - simpl. by rewrite Ascii.eqb_refl.
  - simpl in Hs. destruct (p d) eqn:Hd; [|done].
    change (String d s +:+ String sep t) with (String d (s +:+ String sep t)).
    cbn [Strings.IndexByte]. destruct (Ascii.eqb d sep) eqn:Heq.
    + apply Ascii.eqb_eq in Heq as ->. congruence.
    + by rewrite IH.
Qed.

Lemma length_append (s t : string) :
  String.length (s +:+ t) = (String.length s + String.length t)%nat.
Proof.
  induction s as [|c s IH]; [done|].
  change (String c s +:+ t) with (String c (s +:+ t)). simpl. by rewrite IH.
Qed.

Lemma substring_after (s t : string) (k m : nat) :
  String.substring (String.length s + k) m (s +:+ t) = String.substring k m t.
Proof.
  induction s as [|c s IH]; [done|].
  change (String c s +:+ t) with (String c (s +:+ t)). simpl. exact IH.
Qed.

Lemma validateName_inv (name : string) :
  validateName name = inr tt →
  name ≠ "" ∧ allRunes hostRune name = true
  ∧ isDash (firstByte name) = false ∧ isDash (lastByte name) = false.
Proof.
  unfold validateName, nameRune.
  destruct (String.eqb_spec name "") as [|Hne]; [done|].
  destruct (allRunes hostRune name); [|done]. simpl.
  destruct (isDash (firstByte name)); [done|].
  destruct (isDash (lastByte name)); done.
Qed.

(** X6.  The default host of a valid app name is [<name>.localhost]; it
    passes the validation of custom hosts unchanged, so asking for it
    explicitly gives the same host; and its TLS subject is [*.localhost]. *)
Theorem default_host_is_valid (name : string) :
  validateName name = inr tt →
  let host := name +:+ ".localhost" in
  hostForApp name "" = inr host
  ∧ normalizeHost host = inr host
  ∧ hostForApp name host = inr host
  ∧ tlsSubjectForHost host = "*.localhost".
Proof.
  intros (Hne & Hrunes & Hfirst & Hlast)%validateName_inv host.
  assert (Hdot : hostRune "." = false) by reflexivity.
  assert (Hbytes : allRunes hostByte host = true).
  { unfold host. rewrite allRunes_app. apply andb_true_iff. split; [|done].
    eapply allRunes_impl; [|exact Hrunes]. intros c Hc. unfold hostByte.
    by rewrite Hc. }
  assert (Hfix : Strings.ToLower (Strings.TrimSpace host) = host)
    by (by rewrite TrimSpace_id, ToLower_id).
  assert (Hhost : host ≠ "") by (unfold host; by destruct name).
  assert (Hnorm : normalizeHost host = inr host).
  { unfold normalizeHost. rewrite Hfix.
    destruct (String.eqb_spec host "") as [|_]; [done|].
    rewrite (Contains_absent hostByte host "//" ":") by done.
    rewrite (Contains_absent hostByte host "" "/") by done.
    rewrite (Contains_absent hostByte host "" ":") by done.
    assert (Hprefix : Strings.HasPrefix host "." = false).
    { unfold host. destruct name as [|c r]; [done|].
      simpl in Hrunes. destruct (hostRune c) eqn:Hc; [|done].
      unfold Strings.HasPrefix.
      change (String c r +:+ ".localhost") with (String c (r +:+ ".localhost")).
      change "." with (String "."%char ""). rewrite startsWith_cons.
      destruct (Ascii.eqb "." c) eqn:Heq; [|done].
      apply Ascii.eqb_eq in Heq as <-. done. }
    assert (Hsuffix : Strings.HasSuffix host "." = false).
    { unfold Strings.HasSuffix, host, String.rev. by rewrite rev_app_append. }
    assert (Hdots : Strings.Contains host ".." = false).
    { unfold host. by rewrite (Contains_after hostRune name _ _ "."). }
    rewrite Hprefix, Hsuffix, Hdots. cbn [orb].
    assert (Hsplit : Strings.Split host "." = [name; "localhost"]).
    { unfold Strings.Split, host.
      rewrite (splitGo_before hostRune "." "" name ".localhost") by done.
      cbn [Strings.splitGo Ascii.eqb Bool.eqb].
      change (String.rev (String.rev_app name "")) with (String.rev (String.rev name)).
      by rewrite rev_rev. }
    rewrite Hsplit.
    assert (Hlabels : checkLabels [name; "localhost"] = None).
    { apply checkLabels_None. repeat constructor; done. }
    by rewrite Hlabels. }
  split_and!.
  - done.
  - done.
  - unfold hostForApp. destruct (String.eqb_spec host "") as [|_]; [done|].
    by rewrite Hnorm.
  - unfold tlsSubjectForHost. rewrite Hfix. unfold host.
    change (name +:+ ".localhost") with (name +:+ String "." "localhost").
    rewrite (IndexByte_before hostRune "." name "localhost") by done.
    rewrite length_append. cbn [String.length].
    destruct name as [|c r]; [done|]. cbn [String.length].
    replace ((0 <? S (String.length r))%nat
             && (S (String.length r) <? S (String.length r) + 10 - 1)%nat)
      with true.
    2:{ symmetry. apply andb_true_iff. split; apply Nat.ltb_lt; lia. }
    replace (S (String.length r) + 10 - (S (String.length r) + 1))%nat with 9%nat by lia.
    change (S (String.length r)) with (String.length (String c r)).
    by rewrite substring_after.
Qed.

Lemma default_host_is_valid_witness :
  normalizeHost "my-app.localhost" = inr "my-app.localhost"
  ∧ tlsSubjectForHost "my-app.localhost" = "*.localhost".
Proof.
  destruct (default_host_is_valid "my-app") as (_ & Hnorm & _ & Hsubject);
    [reflexivity|]. by split.
Defined.

Lemma normalizeHost_accepts_canonical_witness :
  normalizeHost "web.dev.test" = inr "web.dev.test".
Proof.
  by destruct (normalizeHost_accepts_canonical " Web.Dev.TEST " "web.dev.test")
    as (_ & _ & _ & _ & Hfix).
Defined.

(** ** TLS subjects *)

Lemma elem_of_tlsSubjects (apps : gmap string App) (s : string) :
  s ∈ tlsSubjects apps ↔
  ∃ name app, apps !! name = Some app ∧ s = tlsSubjectForHost (Host app).
Proof.
  unfold tlsSubjects. rewrite sortStrings_Permutation, elem_of_elements,
    elem_of_list_to_set, list_elem_of_fmap. split.
  - intros (app & -> & Hin). apply list_elem_of_fmap in Hin as ([name app'] & -> & Hin).
    apply elem_of_map_to_list in Hin. by exists name, app'.
  - intros (name & app & Hl & ->). exists app. split; [done|].
    apply list_elem_of_fmap. exists (name, app). split; [done|].
    by apply elem_of_map_to_list.
Qed.

(** X7.  The subject list sent to the TLS policy is sorted, has no
    duplicate, and holds exactly the subjects of the hosts of the apps; apps
    whose hosts share one subject (for instance all default hosts) yield
    that single subject. *)
Theorem tlsSubjects_spec (apps : gmap string App) :
  Sorted String.le (tlsSubjects apps)
  ∧ NoDup (tlsSubjects apps)
  ∧ (∀ s, s ∈ tlsSubjects apps ↔
          ∃ name app, apps !! name = Some app ∧ s = tlsSubjectForHost (Host app))
  ∧ (∀ subject,
       apps ≠ ∅ →
       (∀ name app, apps !! name = Some app →
                    tlsSubjectForHost (Host app) = subject) →
       tlsSubjects apps = [subject]).
Proof.
  assert (Hnodup : NoDup (tlsSubjects apps)).
  { unfold tlsSubjects. rewrite sortStrings_Permutation. apply NoDup_elements. }
  split_and!.
  - apply sortStrings_Sorted.
  - done.
  - apply elem_of_tlsSubjects.
  - intros subject Hne Hall.
    assert (Hin : ∀ s, s ∈ tlsSubjects apps → s = subject).
    { intros s (name & app & Hl & ->)%elem_of_tlsSubjects. eauto. }
    destruct (tlsSubjects apps) as [|s1 [|s2 rest]] eqn:Hlist.
    + by apply tlsSubjects_nil in Hlist.
    + f_equal. apply Hin. by left.
    + exfalso. apply NoDup_cons in Hnodup as [Hnot _]. apply Hnot.
      rewrite (Hin s1), (Hin s2); [by left| |by left]. right. by left.
Qed.

(** ** Merges run again *)

(** X8.  Reconciling twice leaves no trace of the first run: once a
    server holds the routes merged for [apps1], merging for [apps2] gives
    what merging the original routes for [apps2] gives; merging again for
    the same apps changes nothing. *)
Theorem route_merge_forgets_previous_run
    (server server' : list (string * any)) (apps1 apps2 : gmap string App) :
  mapIndex server' "routes" =
    Some (AArr (mergeExternalRoutes server (makeDevwrapRoutes apps1))) →
  mergeExternalRoutes server' (makeDevwrapRoutes apps2) =
    mergeExternalRoutes server (makeDevwrapRoutes apps2)
  ∧ (apps2 = apps1 →
     mergeExternalRoutes server' (makeDevwrapRoutes apps2) =
       mergeExternalRoutes server (makeDevwrapRoutes apps1)).
Proof.
  intros Hroutes.
  assert (Heq : mergeExternalRoutes server' (makeDevwrapRoutes apps2) =
                mergeExternalRoutes server (makeDevwrapRoutes apps2)).
  { rewrite (mergeExternalRoutes_eq server'), Hroutes.
    change (default [] (asSlice (Some (AArr ?l)))) with l.
    rewrite !mergeExternalRoutes_eq, filter_app.
    rewrite (filter_none foreignRoute (makeDevwrapRoutes apps1)), app_nil_r.
    - f_equal. rewrite list_filter_filter. apply list_filter_iff. tauto.
    - eapply Forall_impl; [apply makeDevwrapRoutes_owned|]. apply owned_not_foreign. }
  split; [done|]. by intros ->.
Qed.

Lemma route_merge_forgets_previous_run_witness :
  let apps1 : gmap string App := {[ "a" := Scenario.app "a" 11000 100 ]} in
  let apps2 : gmap string App := {[ "b" := Scenario.app "b" 11001 100 ]} in
  let server := [("routes", AArr [Scenario.foreign; Scenario.stale])] in
  let server' := [("routes", AArr (mergeExternalRoutes server (makeDevwrapRoutes apps1)))] in
  mergeExternalRoutes server' (makeDevwrapRoutes apps2) =
    mergeExternalRoutes server (makeDevwrapRoutes apps2).
Proof.
  intros apps1 apps2 server server'.
  by destruct (route_merge_forgets_previous_run server server' apps1 apps2 eq_refl).
Defined.

Lemma devwrapPolicy_own hosts : isDevwrapPolicy (devwrapPolicy hosts) = true.
Proof. reflexivity. Qed.

Lemma mergeDevwrapInternalTLSPolicy_eq (existing : list any) (hosts : list string) :
  mergeDevwrapInternalTLSPolicy existing hosts =
  match hosts with
  | [] => []
  | _ => [devwrapPolicy hosts]
  end ++ filter foreignPolicy existing.
Proof.
  unfold mergeDevwrapInternalTLSPolicy. rewrite keepForeignPolicies_filter.
  by destruct hosts.
Qed.

(** X9.  The merged TLS policy list is the policy of devwrap (present
    exactly when there is a subject, and then first) followed by the foreign
    policies, verbatim and in their order; it never holds more than one
    policy of devwrap; and merging into an already merged list gives what
    merging into the original list gives. *)
Theorem tls_policy_merge_spec (existing : list any) (hosts hosts' : list string) :
  let merged := mergeDevwrapInternalTLSPolicy existing hosts in
  merged = match hosts with
           | [] => []
           | _ => [devwrapPolicy hosts]
           end ++ filter foreignPolicy existing
  ∧ filter foreignPolicy merged = filter foreignPolicy existing
  ∧ filter (λ policy, ¬ foreignPolicy policy) merged =
      match hosts with
      | [] => []
      | _ => [devwrapPolicy hosts]
      end
  ∧ mergeDevwrapInternalTLSPolicy merged hosts' =
      mergeDevwrapInternalTLSPolicy existing hosts'.
Proof.
  intros merged. unfold merged. rewrite !mergeDevwrapInternalTLSPolicy_eq.
  assert (Hown : ¬ foreignPolicy (devwrapPolicy hosts))
    by (unfold foreignPolicy; by rewrite devwrapPolicy_own).
  assert (Hff : filter foreignPolicy (filter foreignPolicy existing) =
                filter foreignPolicy existing).
  { rewrite list_filter_filter. apply list_filter_iff. tauto. }
  assert (Hnf : filter (λ policy, ¬ foreignPolicy policy)
                  (filter foreignPolicy existing) = []).
  { rewrite list_filter_filter. apply filter_none, Forall_forall.
    intros policy _ [Hn Hf]. done. }
  destruct hosts as [|host rest]; cbn [app].
  - split_and!; [done|done|done|by rewrite Hff].
  - rewrite !filter_cons_False by done.
    rewrite (filter_cons_True (λ policy, ¬ foreignPolicy policy)) by done.
    split_and!; [done|done|by rewrite Hnf|by rewrite Hff].
Qed.

(** ** Server discovery *)

Section Classify.

Variable servers : gmap string (list (string * any)).

Lemma classifyServers_picked (known : string → Prop) names acc :
  Forall known names → picked known acc →
  picked known (classifyServers servers names acc).
Proof.
  intros Hnames. revert acc.
  induction Hnames as [|name names Hname _ IH]; intros acc Hacc; [done|].
  destruct acc as [[[httpName httpsName] httpPort] httpsPort].
  destruct Hacc as (Hh & Hs & Hhp & Hsp). cbn [classifyServers].
  destruct (isTLSServer _ || hasListenPort _ 443).
  - destruct (String.eqb httpsName ""); apply IH; [|done].
    split_and!; [done|by right|done|]. by destruct (Z.ltb_spec 0 (firstListenPort (default [] (servers !! name)))).
  - destruct (String.eqb httpName ""); apply IH; [|done].
    split_and!; [by right|done| |done]. by destruct (Z.ltb_spec 0 (firstListenPort (default [] (servers !! name)))).
Qed.

Lemma classifyServers_someName names acc :
  someName acc ∨ Exists (λ name, name ≠ "") names →
  someName (classifyServers servers names acc).
Proof.
  revert acc. induction names as [|name names IH]; intros acc Hsome.
  { destruct Hsome as [|Hex]; [done|]. by apply Exists_nil in Hex. }
  destruct acc as [[[httpName httpsName] httpPort] httpsPort].
  cbn [classifyServers].
  assert (Hcase : someName (httpName, httpsName, httpPort, httpsPort)
                  ∨ name ≠ "" ∨ Exists (λ name, name ≠ "") names).
  { destruct Hsome as [|Hex]; [by left|]. apply Exists_cons in Hex. tauto. }
  clear Hsome.
  destruct (isTLSServer _ || hasListenPort _ 443).
  - destruct (String.eqb_spec httpsName "") as [->|Hs]; apply IH.
    + destruct Hcase as [[?|?]|[?|?]]; [left; by left|done|left; by right|by right].
    + left. by right.
  - destruct (String.eqb_spec httpName "") as [->|Hh]; apply IH.
    + destruct Hcase as [[?|?]|[?|?]]; [done|left; by right|left; by left|by right].
    + left. by left.
Qed.

Lemma classifyServers_noName names acc :
  Forall (λ name, name = "") names →
  acc.1.1 = ("", "") → (classifyServers servers names acc).1.1 = ("", "").
Proof.
  intros Hnames. revert acc.
  induction Hnames as [|name names -> _ IH]; intros acc Hacc; [done|].
  destruct acc as [[[httpName httpsName] httpPort] httpsPort].
  simpl in Hacc. injection Hacc as -> ->. cbn [classifyServers].
  destruct (isTLSServer _ || hasListenPort _ 443); cbn [String.eqb]; by apply IH.
Qed.

End Classify.

Lemma parseExternalServers_cases (servers : gmap string (list (string * any))) :
  match parseExternalServers servers with
  | inr (httpPort, httpsPort, httpName, httpsName) =>
      is_Some (servers !! httpName)
      ∧ (httpsName = "" ∨ is_Some (servers !! httpsName))
      ∧ (httpsName = "" →
         httpName = "devwrap-http" ∧ servers !! "devwrap-https" = None
         ∧ httpsPort = httpPort)
      ∧ (is_Some (servers !! "devwrap-http") → httpName = "devwrap-http")
      ∧ (servers !! "devwrap-http" = None →
         httpName ≠ "" ∧ httpsName ≠ "" ∧ 0 < httpPort ∧ 0 < httpsPort
         ∧ ∃ name, name ≠ "" ∧ is_Some (servers !! name))
  | inl err =>
      err = ErrServerPorts
      ∧ servers !! "devwrap-http" = None
      ∧ ∀ name, is_Some (servers !! name) → name = ""
  end.
Proof.
  unfold parseExternalServers.
  destruct (servers !! "devwrap-http") as [server|] eqn:Hmanaged.
  - destruct (servers !! "devwrap-https") as [httpsServer|] eqn:Hhttps.
    + split_and!; [by eexists|right; by eexists|done|done|done].
    + split_and!; [by eexists|by left|done|done|done].
  - set (names := sortStrings (mapKeys servers)).
    assert (Hknown : Forall (λ name, is_Some (servers !! name)) names).
    { apply Forall_forall. intros name Hin. unfold names in Hin.
      rewrite sortStrings_Permutation in Hin. by apply elem_of_mapKeys. }
    pose proof (classifyServers_picked servers _ names ("", "", 80, 443) Hknown)
      as Hpicked.
    pose proof (classifyServers_someName servers names ("", "", 80, 443)) as Hsome.
    pose proof (classifyServers_noName servers names ("", "", 80, 443)) as Hnone.
    destruct (classifyServers servers names ("", "", 80, 443))
      as [[[httpName httpsName] httpPort] httpsPort].
    destruct Hpicked as (Hh & Hs & Hhp & Hsp); [by split_and!; try lia; left|].
    destruct (String.eqb_spec httpName "") as [->|Hhne];
      [destruct (String.eqb_spec httpsName "") as [->|Hsne]|]; cbn [andb].
    + split_and!; [done|done|]. intros name Hname.
      destruct (String.eqb_spec name "") as [|Hne]; [done|]. exfalso.
      destruct Hsome as [|]; [|done..]. right. apply Exists_exists.
      exists name. split; [|done]. unfold names.
      rewrite sortStrings_Permutation. by apply elem_of_mapKeys.
    + destruct Hs as [|Hs]; [done|].
      split_and!; [done|by right|done|by intros [? ?]|].
      intros _. split_and!; try done. by exists httpsName.
    + destruct Hh as [|Hh]; [done|].
      destruct (String.eqb_spec httpsName "") as [->|Hsne].
      * split_and!; [done|by right|done|by intros [? ?]|].
        intros _. split_and!; try done. by exists httpName.
      * destruct Hs as [|Hs]; [done|].
        split_and!; [done|by right|done|by intros [? ?]|].
        intros _. split_and!; try done. by exists httpName.
Qed.

(** The resolver does fail when no server has a non-empty name. *)
Lemma parseExternalServers_fails (servers : gmap string (list (string * any))) :
  (∀ name, is_Some (servers !! name) → name = "") →
  parseExternalServers servers = inl ErrServerPorts.
Proof.
  intros Hall. unfold parseExternalServers.
  destruct (servers !! "devwrap-http") as [server|] eqn:Hmanaged.
  { by specialize (Hall "devwrap-http" (ltac:(by eexists))). }
  set (names := sortStrings (mapKeys servers)).
  assert (Hnames : Forall (λ name, name = "") names).
  { apply Forall_forall. intros name Hin. unfold names in Hin.
    rewrite sortStrings_Permutation in Hin. by apply Hall, elem_of_mapKeys. }
  pose proof (classifyServers_noName servers names ("", "", 80, 443) Hnames eq_refl)
    as Hnone.
  destruct (classifyServers servers names ("", "", 80, 443))
    as [[[httpName httpsName] httpPort] httpsPort].
  simpl in Hnone. by injection Hnone as -> ->.
Qed.

(** X10.  When the resolver succeeds, the HTTP server it names is a
    configured server, and so is the HTTPS server unless the name is empty,
    which happens only for a managed proxy without [devwrap-https] (the
    HTTPS port is then the HTTP port).  The reserved server [devwrap-http]
    is selected whenever it exists.  Without it, both names are non-empty,
    both ports are positive, and the resolver fails exactly when no server
    has a non-empty name. *)
Theorem parseExternalServers_spec (servers : gmap string (list (string * any))) :
  match parseExternalServers servers with
  | inr (httpPort, httpsPort, httpName, httpsName) =>
      is_Some (servers !! httpName)
      ∧ (httpsName = "" ∨ is_Some (servers !! httpsName))
      ∧ (httpsName = "" →
         httpName = "devwrap-http" ∧ servers !! "devwrap-https" = None
         ∧ httpsPort = httpPort)
      ∧ (is_Some (servers !! "devwrap-http") → httpName = "devwrap-http")
      ∧ (servers !! "devwrap-http" = None →
         httpName ≠ "" ∧ httpsName ≠ "" ∧ 0 < httpPort ∧ 0 < httpsPort
         ∧ ∃ name, name ≠ "" ∧ is_Some (servers !! name))
  | inl err =>
      err = ErrServerPorts
      ∧ servers !! "devwrap-http" = None
      ∧ ∀ name, is_Some (servers !! name) → name = ""
  end
  ∧ ((∀ name, is_Some (servers !! name) → name = "") →
     parseExternalServers servers = inl ErrServerPorts).
Proof.
  split; [apply parseExternalServers_cases|apply parseExternalServers_fails].
Qed.

(** ** The lease manager, further *)

Lemma allocatePortFromApps_inr (E : Env) (apps : gmap string App) (port : Z) :
  allocatePortFromApps E apps = inr port →
  11000 ≤ port ≤ 19999 ∧ listenOK E port = true
  ∧ ∀ name app, apps !! name = Some app → Port app ≠ port.
Proof.
  unfold allocatePortFromApps.
  pose proof (scanPorts_spec E (usedPorts apps) (Z.to_nat 9000) 11000) as Hscan.
  destruct (scanPorts E (usedPorts apps) (Z.to_nat 9000) 11000) as [p|]; [|done].
  intros [= ->]. destruct Hscan as (Hrange & [Hfree Hlisten] & _); [lia|].
  split_and!; [lia|lia|done|]. intros name app Hl Hport. apply Hfree.
  apply elem_of_usedPorts. eauto.
Qed.

Lemma distinctPorts_evictDead (E : Env) (apps : gmap string App) :
  distinctPorts apps → distinctPorts (evictDead E apps).
Proof.
  intros Hd n1 n2 a1 a2 [H1 _]%lookup_evictDead [H2 _]%lookup_evictDead.
  by apply Hd.
Qed.

(** X1.  An acquisition that succeeds keeps the ports of the live apps
    pairwise distinct: the state it persists holds the live apps unchanged,
    plus the lease under the acquired name, whose port differs from every
    other app's.  A lease created anew has a port of 11000..19999 that a
    loopback listener could bind; a name already leased to a live process
    is taken over, whoever that process is: name, host and port stay, the
    PID becomes the caller's. *)
Theorem acquire_keeps_ports_distinct
    (E : Env) (name : string) (pid : Z) (w w' : World) (state : daemonState)
    (lease : Lease) :
  loadLocalState E w = (inr state, w) →
  distinctPorts (evictDead E (Apps state)) →
  requestLeaseDirect E name pid w = (inr lease, w') →
  ∃ state' app,
    loadLocalState E w' = (inr state', w')
    ∧ distinctPorts (Apps state')
    ∧ (∀ other, other ≠ name →
         Apps state' !! other = evictDead E (Apps state) !! other)
    ∧ Apps state' !! name = Some app
    ∧ Port app = lease_Port lease ∧ Host app = lease_Host lease ∧ PID app = pid
    ∧ (evictDead E (Apps state) !! name = None →
       Name app = name
       ∧ 11000 ≤ lease_Port lease ≤ 19999
       ∧ listenOK E (lease_Port lease) = true)
    ∧ (∀ old, evictDead E (Apps state) !! name = Some old →
       Name app = Name old ∧ Host app = Host old ∧ Port app = Port old).
Proof.
  intros Hload Hdistinct Hrun.
  pose proof (loadLocalState_dir _ _ _ _ Hload) as Hdir.
  apply requestLeaseDirect_inv in Hrun
    as (state0 & app & hp & hsp & Hload0 & Happ & Hfile & _ & Hhost & Hport & _).
  rewrite Hload in Hload0. injection Hload0 as <-.
  set (live := evictDead E (Apps state)) in *.
  destruct (loadLocalState_saved E w' _ Hdir Hfile) as (state' & Hl' & Ha & _).
  simpl in Ha. exists state', app. rewrite Ha.
  assert (Hothers : ∀ other a, other ≠ name → live !! other = Some a →
                      Port a ≠ Port app).
  { intros other a Hne Hother. unfold leasedApp in Happ.
    destruct (live !! name) as [old|] eqn:Hold.
    - subst app. simpl. by apply (Hdistinct other name).
    - destruct Happ as (port & Halloc & ->). simpl.
      apply allocatePortFromApps_inr in Halloc as (_ & _ & Hfree). eauto. }
  split_and!; try done.
  - intros n1 n2 a1 a2. rewrite !lookup_insert.
    repeat case_decide; subst; intros H1 H2 Hne; simplify_eq.
    + intros Heq. by apply (Hothers n2 a2).
    + by apply (Hothers n1 a1).
    + by apply (Hdistinct n1 n2).
  - intros other Hne. by rewrite lookup_insert_ne.
  - by rewrite lookup_insert_eq.
  - unfold leasedApp in Happ. destruct (live !! name); [by subst app|].
    by destruct Happ as (port & _ & ->).
  - intros Hnew. unfold leasedApp in Happ. rewrite Hnew in Happ.
    destruct Happ as (port & Halloc & ->). simpl in Hport. rewrite Hport.
    apply allocatePortFromApps_inr in Halloc as (? & ? & _). done.
  - intros old Hold. unfold leasedApp in Happ. rewrite Hold in Happ.
    by subst app.
Qed.

Lemma acquire_keeps_ports_distinct_witness :
  let E := Scenario.env Scenario.caddyUp (λ pid, pid =? 100) in
  let w := Scenario.world {[ "x" := Scenario.app "x" 11000 100 ]} in
  ∃ state' app,
    loadLocalState E (requestLeaseDirect E "y" 100 w).2 =
      (inr state', (requestLeaseDirect E "y" 100 w).2)
    ∧ distinctPorts (Apps state')
    ∧ Apps state' !! "y" = Some app
    ∧ Port app = 11001.
Proof.
  intros E w.
  set (state := mkState 1 "unmanaged" true 80 443 {[ "x" := Scenario.app "x" 11000 100 ]}).
  set (lease := mkLease "y" "y.localhost" 11001 "http://y.localhost"
                        "https://y.localhost" false).
  assert (Hload : loadLocalState E w = (inr state, w)) by (vm_compute; reflexivity).
  set (run := requestLeaseDirect E "y" 100 w).
  assert (Hrun : run = (inr lease, run.2)) by (by vm_compute).
  assert (Hdistinct : distinctPorts (evictDead E (Apps state))).
  { apply distinctPorts_evictDead. intros n1 n2 a1 a2 H1 H2 Hne.
    unfold state in H1, H2. cbn [Apps] in H1, H2.
    apply lookup_singleton_Some in H1 as [<- _].
    apply lookup_singleton_Some in H2 as [<- _]. exfalso. apply Hne. reflexivity. }
  pose proof (acquire_keeps_ports_distinct E "y" 100 w run.2 state lease
                Hload Hdistinct Hrun) as Hthm.
  destruct Hthm as (state' & app & Hl & Hd & _ & Hy & Hport & _).
  exists state', app. split; [exact Hl|]. split; [exact Hd|].
  split; [exact Hy|]. rewrite Hport. reflexivity.
Defined.

(** ** The state store, further *)

Lemma loadLocalState_document (E : Env) (w : World) (state : daemonState) :
  runtimeDirOK E = true →
  stateFile w = Document (marshalState state) →
  loadLocalState E w =
    (inr (withCaddySource state (currentSource (CaddySource state))), w).
Proof.
  intros Hdir Hf. unfold loadLocalState, statePath, bind.
  rewrite Hdir. cbn [ret]. rewrite Hf, unmarshal_marshal.
  unfold currentSource. destruct state as [v src root hp hsp apps].
  cbn [CaddySource withCaddySource Version Root HTTPPort HTTPSPort Apps].
  destruct (String.eqb src "" || String.eqb src "existing") eqn:Hold;
    cbn [CaddySource withCaddySource Version Root HTTPPort HTTPSPort Apps
         String.eqb Ascii.eqb Bool.eqb]; [reflexivity|].
  by destruct (String.eqb src "spawned") eqn:Hspawned.
Qed.

(** ** Reconcile and save *)

Lemma reconcileAndSave_inv (E : Env) (state : daemonState) (w : World) :
  let run := reconcileAndSave E state w in
  (∃ reqs, adminLog run.2 = adminLog w ++ reqs
           ∧ Forall (reconciles (Apps state)) reqs)
  ∧ match run.1 with
    | inl _ => stateFile run.2 = stateFile w
    | inr _ => stateFile run.2 = Document (marshalState state)
    end.
Proof.
  intros run. subst run. unfold reconcileAndSave, bind.
  destruct (applyRoutesViaAdmin E (Apps state) w) as [[e|ports] w1] eqn:Happly;
    apply applyRoutesViaAdmin_world in Happly as (reqs & -> & HR);
    (split; [exists reqs; split; [|done]|]); cbn [fst snd adminLog stateFile];
    try done.
  - unfold saveLocalState, statePath, bind.
    destruct (runtimeDirOK E); [|done]. cbn [ret].
    destruct (tmpWrite E); [|done..]. by destruct (renameOK E).
  - unfold saveLocalState, statePath, bind.
    destruct (runtimeDirOK E); [|done]. cbn [ret].
    destruct (tmpWrite E); [|done..]. by destruct (renameOK E).
Qed.

Lemma removeDirect_present (E : Env) (name : string) (w : World)
    (state : daemonState) (app : App) :
  flockOK E = true →
  loadLocalState E w = (inr state, w) →
  Apps state !! name = Some app →
  removeDirect E name w =
  reconcileAndSave E (withApps state (delete name (Apps state))) w.
Proof.
  intros Hflock Hload Hl. unfold removeDirect, withStateLock.
  rewrite (loadLocalState_dir _ _ _ _ Hload), Hflock. cbn [negb].
  unfold bind at 1. by rewrite Hload, Hl.
Qed.

Lemma removeDirect_absent (E : Env) (name : string) (w : World)
    (state : daemonState) :
  loadLocalState E w = (inr state, w) →
  Apps state !! name = None →
  (removeDirect E name w).2 = w
  ∧ (flockOK E = true → (removeDirect E name w).1 = inr tt).
Proof.
  intros Hload Hl. unfold removeDirect, withStateLock.
  rewrite (loadLocalState_dir _ _ _ _ Hload). cbn [negb].
  destruct (flockOK E); cbn [negb]; [|done].
  unfold bind. by rewrite Hload, Hl.
Qed.

Lemma removeDirect_locked (E : Env) (name : string) (w : World) :
  flockOK E = false →
  (removeDirect E name w).2 = w ∧ ∃ e, (removeDirect E name w).1 = inl e.
Proof.
  intros Hflock. unfold removeDirect, withStateLock. rewrite Hflock.
  destruct (runtimeDirOK E); cbn [negb]; split; by eauto.
Qed.

(** X3.  [removeDirect] deletes the lease whoever owns it.  For a name
    that is not recorded nothing is touched and no request is sent.  For a
    recorded name, every route list written holds routes of the other apps
    only; an error leaves the state file as found, and a success leaves a
    state file that loads to the recorded apps without [name], the other
    leases and the ports unchanged. *)
Theorem remove_deletes_any_owner
    (E : Env) (name : string) (w : World) (state : daemonState) :
  loadLocalState E w = (inr state, w) →
  let run := removeDirect E name w in
  let rest := delete name (Apps state) in
  (Apps state !! name = None →
     run.2 = w ∧ (flockOK E = true → run.1 = inr tt))
  ∧ (∃ reqs, adminLog run.2 = adminLog w ++ reqs
             ∧ Forall (routesFrom rest) reqs)
  ∧ match run.1 with
    | inl _ => stateFile run.2 = stateFile w
    | inr _ =>
        ∃ state', loadLocalState E run.2 = (inr state', run.2)
                  ∧ Apps state' = rest
                  ∧ Apps state' !! name = None
                  ∧ (∀ other, other ≠ name →
                       Apps state' !! other = Apps state !! other)
                  ∧ HTTPPort state' = HTTPPort state
                  ∧ HTTPSPort state' = HTTPSPort state
    end.
Proof.
  intros Hload run rest. pose proof (loadLocalState_dir _ _ _ _ Hload) as Hdir.
  assert (Hrest : ∀ state' : daemonState, Apps state' = rest →
            Apps state' !! name = None
            ∧ ∀ other, other ≠ name → Apps state' !! other = Apps state !! other).
  { intros state' ->. split; [apply lookup_delete_eq|].
    intros other Hne. by apply lookup_delete_ne. }
  destruct (flockOK E) eqn:Hflock; cycle 1.
  { destruct (removeDirect_locked E name w Hflock) as [Hw [e He]].
    subst run. rewrite Hw, He. split_and!; [by split| |done].
    exists []. by rewrite app_nil_r. }
  destruct (Apps state !! name) as [app|] eqn:Hl; cycle 1.
  { destruct (removeDirect_absent E name w state Hload Hl) as [Hw Hr].
    subst run. rewrite Hw, Hr by done. split_and!; [by split| |].
    - exists []. by rewrite app_nil_r.
    - exists state. split; [done|]. subst rest. rewrite delete_id by done.
      split; [done|]. split; [done|]. done. }
  subst run. rewrite (removeDirect_present E name w state app Hflock Hload Hl).
  fold rest.
  pose proof (reconcileAndSave_inv E (withApps state rest) w) as Hinv.
  cbv zeta in Hinv. destruct Hinv as [(reqs & Hlog & HR) Hfile].
  split; [done|]. split.
  { exists reqs. split; [done|]. by apply Forall_reconciles_routesFrom. }
  destruct (reconcileAndSave E (withApps state rest) w).1; [exact Hfile|].
  destruct (loadLocalState_saved E _ _ Hdir Hfile)
    as (state' & Hl' & Ha & _ & Hhp & Hhsp).
  exists state'. cbn in Ha, Hhp, Hhsp.
  destruct (Hrest state' Ha). by split_and!.
Qed.

Lemma remove_deletes_any_owner_witness :
  let E := Scenario.env Scenario.caddyUp (λ pid, pid =? 100) in
  let w := Scenario.world {[ "x" := Scenario.app "x" 11000 100 ]} in
  ∃ state',
    loadLocalState E (removeDirect E "x" w).2 =
      (inr state', (removeDirect E "x" w).2)
    ∧ Apps state' !! "x" = None.
Proof.
  intros E w.
  set (state := mkState 1 "unmanaged" true 80 443
                  {[ "x" := Scenario.app "x" 11000 100 ]}).
  assert (Hload : loadLocalState E w = (inr state, w)) by (by vm_compute).
  pose proof (remove_deletes_any_owner E "x" w state Hload) as Hthm.
  cbv zeta in Hthm. destruct Hthm as (_ & _ & Hrun).
  assert (Hok : (removeDirect E "x" w).1 = inr tt) by (by vm_compute).
  rewrite Hok in Hrun. destruct Hrun as (state' & Hl & _ & Hgone & _).
  exists state'. split; [exact Hl|exact Hgone].
Defined.

Lemma release_as_remove (E : Env) (name : string) (pid : Z) (w : World)
    (state : daemonState) :
  loadLocalState E w = (inr state, w) →
  (∀ app, Apps state !! name = Some app → pid ≤ 0 ∨ PID app = pid) →
  (releaseLeaseDirect E name pid w).2 = (removeDirect E name w).2.
Proof.
  intros Hload Howner. unfold releaseLeaseDirect, removeDirect, discard, withStateLock.
  cbn [snd]. destruct (runtimeDirOK E); cbn [negb]; [|done].
  destruct (flockOK E); cbn [negb]; [|done].
  unfold bind at 1 3. rewrite Hload.
  destruct (Apps state !! name) as [app|] eqn:Hl; [|done].
  destruct (Howner app eq_refl) as [Hpid| ->].
  - destruct (0 <? pid) eqn:Hp; [lia|]. done.
  - by rewrite Z.eqb_refl, andb_false_r.
Qed.

(** X4.  [releaseLeaseDirect] never reports an error and touches no lease
    but the named one.  For a name that is not recorded nothing changes.
    Otherwise every route list written holds routes of the other apps
    only, and the state file it leaves loads to the recorded apps or to
    the recorded apps without [name], with the other leases and the ports
    unchanged.  When the caller is the owner, or passes no positive PID,
    the effect is that of [removeDirect]. *)
Theorem release_touches_named_lease_only
    (E : Env) (name : string) (pid : Z) (w : World) (state : daemonState) :
  loadLocalState E w = (inr state, w) →
  let run := releaseLeaseDirect E name pid w in
  let rest := delete name (Apps state) in
  run.1 = inr tt
  ∧ (Apps state !! name = None → run.2 = w)
  ∧ (∃ reqs, adminLog run.2 = adminLog w ++ reqs
             ∧ Forall (routesFrom rest) reqs)
  ∧ (∃ state', loadLocalState E run.2 = (inr state', run.2)
               ∧ (Apps state' = Apps state ∨ Apps state' = rest)
               ∧ (∀ other, other ≠ name →
                    Apps state' !! other = Apps state !! other)
               ∧ HTTPPort state' = HTTPPort state
               ∧ HTTPSPort state' = HTTPSPort state)
  ∧ ((∀ app, Apps state !! name = Some app → pid ≤ 0 ∨ PID app = pid) →
     run.2 = (removeDirect E name w).2).
Proof.
  intros Hload run rest. pose proof (loadLocalState_dir _ _ _ _ Hload) as Hdir.
  split; [done|]. split.
  { intros Hl. subst run. unfold releaseLeaseDirect, discard, withStateLock.
    cbn [snd]. rewrite Hdir. cbn [negb]. destruct (flockOK E); cbn [negb]; [|done].
    unfold bind. by rewrite Hload, Hl. }
  split_and!; [| |by apply release_as_remove].
  - destruct (releaseLeaseDirect_cases E name pid w)
      as [Hnoop|(state0 & app & Hload0 & Hl & _ & Hrun)]; subst run.
    + rewrite Hnoop. exists []. by rewrite app_nil_r.
    + rewrite Hload in Hload0. injection Hload0 as <-. rewrite Hrun.
      unfold discard. cbn [snd]. fold rest.
      pose proof (reconcileAndSave_inv E (withApps state rest) w) as Hinv.
      cbv zeta in Hinv. destruct Hinv as [(reqs & Hlog & HR) _].
      exists reqs. split; [done|]. by apply Forall_reconciles_routesFrom.
  - destruct (releaseLeaseDirect_cases E name pid w)
      as [Hnoop|(state0 & app & Hload0 & Hl & _ & Hrun)]; subst run.
    + rewrite Hnoop. exists state. cbn [snd]. split_and!; by auto.
    + rewrite Hload in Hload0. injection Hload0 as <-. rewrite Hrun.
      unfold discard. cbn [snd]. fold rest.
      pose proof (reconcileAndSave_inv E (withApps state rest) w) as Hinv.
      cbv zeta in Hinv. destruct Hinv as [_ Hfile].
      destruct (reconcileAndSave E (withApps state rest) w) as [[e|[]] w1].
      * cbn [fst snd] in *. exists state. split_and!; try by auto.
        by apply (loadLocalState_transfer E w w1).
      * cbn [fst snd] in *.
        destruct (loadLocalState_saved E _ _ Hdir Hfile)
          as (state' & Hl' & Ha & _ & Hhp & Hhsp).
        exists state'. cbn in Ha, Hhp, Hhsp. split_and!; try by auto.
        intros other Hne. rewrite Ha. by apply lookup_delete_ne.
Qed.

Lemma release_touches_named_lease_only_witness :
  let E := Scenario.env Scenario.caddyUp (λ pid, pid =? 100) in
  let w := Scenario.world {[ "x" := Scenario.app "x" 11000 100 ]} in
  (releaseLeaseDirect E "x" 100 w).1 = inr tt
  ∧ (releaseLeaseDirect E "x" 100 w).2 = (removeDirect E "x" w).2.
Proof.
  intros E w.
  set (state := mkState 1 "unmanaged" true 80 443
                  {[ "x" := Scenario.app "x" 11000 100 ]}).
  assert (Hload : loadLocalState E w = (inr state, w)) by (by vm_compute).
  pose proof (release_touches_named_lease_only E "x" 100 w state Hload) as Hthm.
  cbv zeta in Hthm. destruct Hthm as (Hok & _ & _ & _ & Hremove).
  split; [exact Hok|]. apply Hremove. intros app Hl. right.
  unfold state in Hl. cbn [Apps] in Hl.
  apply lookup_singleton_Some in Hl as [_ <-]. reflexivity.
Defined.

(** X16.  Stopping the spawned Caddy keeps every lease.  When [caddy.Stop]
    fails its error is returned and nothing is touched.  Otherwise the
    admin endpoint is not contacted; an error leaves the state file as
    found, and a success leaves a state file that loads to the state found
    with the source tag [unmanaged]: version, ports and all apps, those of
    dead processes included, are the ones recorded before. *)
Theorem stop_spawned_keeps_leases
    (E : Env) (w : World) (state : daemonState) :
  loadLocalState E w = (inr state, w) →
  let run := stopSpawnedCaddy E None w in
  (∀ err, stopSpawnedCaddy E (Some err) w = (inl err, w))
  ∧ adminLog run.2 = adminLog w
  ∧ match run.1 with
    | inl _ => stateFile run.2 = stateFile w
    | inr _ =>
        stateTmp run.2 = Absent
        ∧ loadLocalState E run.2 =
            (inr (withCaddySource state "unmanaged"), run.2)
    end
  ∧ (flockOK E = true → tmpWrite E = WriteDone → renameOK E = true →
     run.1 = inr tt).
Proof.
  intros Hload run. pose proof (loadLocalState_dir _ _ _ _ Hload) as Hdir.
  split; [done|]. subst run.
  destruct (flockOK E) eqn:Hflock; cycle 1.
  { unfold stopSpawnedCaddy, withStateLock. rewrite Hdir, Hflock. done. }
  assert (Hrun : stopSpawnedCaddy E None w =
                 saveLocalState E (withCaddySource state "unmanaged") w).
  { unfold stopSpawnedCaddy, withStateLock. rewrite Hdir, Hflock. cbn [negb].
    unfold bind at 1. by rewrite Hload. }
  rewrite Hrun. clear Hrun.
  unfold saveLocalState, statePath, bind. rewrite Hdir. cbn [ret].
  destruct (tmpWrite E); [|done..].
  destruct (renameOK E); [|done]. cbn [fst snd stateTmp adminLog].
  split_and!; try done.
  by rewrite (loadLocalState_document E _ (withCaddySource state "unmanaged")).
Qed.

Lemma stop_spawned_keeps_leases_witness :
  let E := Scenario.env Scenario.caddyUp (λ _, false) in
  let w := Scenario.world {[ "x" := Scenario.app "x" 11000 100 ]} in
  ∃ state',
    loadLocalState E (stopSpawnedCaddy E None w).2 =
      (inr state', (stopSpawnedCaddy E None w).2)
    ∧ Apps state' !! "x" = Some (Scenario.app "x" 11000 100).
Proof.
  intros E w.
  set (state := mkState 1 "unmanaged" true 80 443
                  {[ "x" := Scenario.app "x" 11000 100 ]}).
  assert (Hload : loadLocalState E w = (inr state, w)) by (by vm_compute).
  pose proof (stop_spawned_keeps_leases E w state Hload) as Hthm.
  cbv zeta in Hthm. destruct Hthm as (_ & _ & Hrun & Hok).
  rewrite Hok in Hrun by reflexivity. destruct Hrun as [_ Hl].
  eexists. split; [exact Hl|]. apply lookup_singleton_eq.
Defined.

(** ** Addresses *)

(** X15.  The three places that print the HTTPS address of an app agree:
    the lease ([leaseFromAppAndPorts]), [App.HTTPSURL] and the list
    command ([portSuffix]) all give the scheme, the host and, unless the
    port is 443, a colon and the port in decimal.  Building the lease
    writes no file and sends one request, a GET. *)
Theorem https_address_agrees
    (E : Env) (app : App) (httpPort httpsPort : Z) (w : World) :
  ∃ lease req,
    leaseFromAppAndPorts E app httpPort httpsPort w =
      (inr lease, mkWorld (stateFile w) (stateTmp w) (adminLog w ++ [req]))
    ∧ readOnly req
    ∧ lease_HTTPSURL lease = HTTPSURL app httpsPort
    ∧ HTTPSURL app httpsPort = "https://" +:+ Host app +:+ portSuffix httpsPort
    ∧ lease_HTTPURL lease =
        "http://" +:+ Host app +:+
        (if httpPort =? 80 then "" else ":" +:+ Strings.Itoa httpPort)
    ∧ lease_Name lease = Name app ∧ lease_Host lease = Host app
    ∧ lease_Port lease = Port app.
Proof.
  unfold leaseFromAppAndPorts, bind.
  destruct (isCertTrusted_run E w) as (trusted & req & -> & Hro & _).
  eexists _, req. split; [reflexivity|]. split; [done|].
  cbn [lease_HTTPSURL lease_HTTPURL lease_Name lease_Host lease_Port].
  unfold HTTPSURL, portSuffix.
  split_and!; try done.
  - by destruct (httpsPort =? 443).
  - destruct (httpsPort =? 443); [|done]. by rewrite append_empty_r.
  - destruct (httpPort =? 80); [|done]. by rewrite append_empty_r.
Qed.

(** ** Status *)

Lemma appOrder_total : Total (λ a b : App, String.le (Name a) (Name b)).
Proof. intros a b. apply (total String.le). Qed.

Lemma sortApps_Sorted (apps : list App) :
  Sorted (λ a b, String.le (Name a) (Name b)) (sortApps apps).
Proof.
  apply (@Sorted_merge_sort _ _ _ appOrder_total).
Qed.

Lemma sortApps_Permutation (apps : list App) : sortApps apps ≡ₚ apps.
Proof. apply merge_sort_Permutation. Qed.

(** X13.  What [localStatusFromFiles] reports and what it touches.  The
    apps of a status are the recorded apps whose process is alive, in
    ascending order of their names; the source tag is [managed] or
    [unmanaged]; a PID is reported only for a managed Caddy whose recorded
    daemon process is alive.  When every recorded app is alive the call
    reads only: both files stay as they are and every request sent is a
    GET without a body. *)
Theorem status_lists_live_apps_sorted
    (E : Env) (w : World) (state : daemonState) :
  loadLocalState E w = (inr state, w) →
  let run := localStatusFromFiles E w in
  let live := evictDead E (Apps state) in
  ((∀ name app, Apps state !! name = Some app →
      processAlive E (PID app) = true) →
   ∃ reqs,
     run.2 = mkWorld (stateFile w) (stateTmp w) (adminLog w ++ reqs)
     ∧ Forall (λ req, readOnly req ∧ payload req = None) reqs)
  ∧ ∀ status, run.1 = inr status →
      st_Apps status ≡ₚ (map_to_list live).*2
      ∧ Sorted (λ a b, String.le (Name a) (Name b)) (st_Apps status)
      ∧ (∀ app, app ∈ st_Apps status → processAlive E (PID app) = true)
      ∧ st_Running status = true
      ∧ (st_CaddySource status = "managed"
         ∨ st_CaddySource status = "unmanaged" ∧ st_PID status = 0)
      ∧ (st_PID status ≠ 0 →
         daemonPIDFile E = Some (st_PID status)
         ∧ processAlive E (st_PID status) = true).
Proof.
  intros Hload run live. pose proof (loadLocalState_dir _ _ _ _ Hload) as Hdir.
  remember (localStatusFromFiles E w) as r eqn:Hrun. subst run.
  unfold localStatusFromFiles, withStateLock in Hrun. rewrite Hdir in Hrun.
  cbn [negb] in Hrun.
  destruct (flockOK E) eqn:Hflock; cbn [negb] in Hrun; cycle 1.
  { subst r. split; [|done]. intros _. exists []. rewrite app_nil_r.
    by rewrite world_eta. }
  unfold bind at 1 in Hrun.
  destruct (inspectExternalCaddy_adminOnly E w) as (reqs0 & Hw0 & HR0).
  destruct (inspectExternalCaddy E w)
    as [[e|[[[available infoHTTP] infoHTTPS] infoManaged]] w0];
    cbn [snd] in Hw0; subst w0.
  { subst r. split; [|done]. intros _. by exists reqs0. }
  unfold bind at 1 in Hrun.
  match type of Hrun with
  | context [loadLocalState E ?w0] =>
      rewrite (loadLocalState_transfer E w w0 _ eq_refl Hload) in Hrun
  end.
  fold live in Hrun.
  assert (Hpid : ∀ pid,
            pid = (if infoManaged
                   then match readDaemonPID E with
                        | inr p => if processAlive E p then p else 0
                        | inl _ => 0
                        end
                   else 0) →
            ((if infoManaged then "managed" else "unmanaged") = "managed"
             ∨ (if infoManaged then "managed" else "unmanaged") = "unmanaged"
               ∧ pid = 0)
            ∧ (pid ≠ 0 → daemonPIDFile E = Some pid
                          ∧ processAlive E pid = true)).
  { intros pid ->. destruct infoManaged; [|split; [by right|done]].
    split; [by left|].
    unfold readDaemonPID. destruct (daemonPIDFile E) as [p|]; [|done].
    destruct (processAlive E p) eqn:Halive; [|done]. done. }
  assert (Hlist : ∀ apps, apps = sortApps (map_to_list live).*2 →
            apps ≡ₚ (map_to_list live).*2
            ∧ Sorted (λ a b, String.le (Name a) (Name b)) apps
            ∧ ∀ app, app ∈ apps → processAlive E (PID app) = true).
  { intros apps ->. split; [apply sortApps_Permutation|].
    split; [apply sortApps_Sorted|]. intros app.
    rewrite sortApps_Permutation, list_elem_of_fmap.
    intros ([name app'] & -> & Hin). apply elem_of_map_to_list in Hin.
    by apply lookup_evictDead in Hin as [_ Halive]. }
  destruct (existsb _ (map_to_list (Apps state))) eqn:Hchanged.
  - split.
    { intros Halive. apply evictDead_all_alive in Halive.
      assert (Hno : existsb (λ kv, negb (processAlive E (PID kv.2)))
                      (map_to_list (Apps state)) = false); [|congruence].
      apply not_true_is_false. intros [[name app] [Hin Hdead]]%existsb_exists.
      apply list_elem_of_In, elem_of_map_to_list in Hin.
      rewrite <- Halive in Hin. apply lookup_evictDead in Hin as [_ Hin].
      cbn in Hdead. by rewrite Hin in Hdead. }
    unfold bind at 1 2 in Hrun. unfold discard at 1 in Hrun.
    unfold discard at 1 in Hrun. unfold bind in Hrun.
    match type of Hrun with
    | context [isCertTrusted E ?w2] =>
        destruct (isCertTrusted_run E w2) as (trusted & req & Hcert & _)
    end.
    rewrite Hcert in Hrun. subst r. cbn [fst]. intros status [= <-].
    cbn [st_Apps st_Running st_CaddySource st_PID withApps Apps].
    destruct (Hlist _ eq_refl) as (? & ? & ?).
    destruct (Hpid _ eq_refl) as (? & ?). by split_and!.
  - apply changed_false in Hchanged. fold live in Hchanged.
    unfold bind at 1 in Hrun. cbn [ret] in Hrun. unfold bind in Hrun.
    match type of Hrun with
    | context [isCertTrusted E ?w2] =>
        destruct (isCertTrusted_run E w2)
          as (trusted & req & Hcert & Hro & Hpl)
    end.
    rewrite Hcert in Hrun. subst r. cbn [fst snd stateFile stateTmp adminLog].
    split.
    + intros _. exists (reqs0 ++ [req]). rewrite app_assoc. split; [done|].
      apply Forall_app. split; [done|]. by constructor.
    + intros status [= <-].
      cbn [st_Apps st_Running st_CaddySource st_PID withApps Apps].
      destruct (Hlist _ eq_refl) as (? & ? & ?).
      destruct (Hpid _ eq_refl) as (? & ?). by split_and!.
Qed.

Lemma status_lists_live_apps_sorted_witness :
  let E := Scenario.env Scenario.caddyUp (λ pid, pid =? 100) in
  let w := Scenario.world {[ "x" := Scenario.app "x" 11000 100 ]} in
  ∃ status reqs,
    (localStatusFromFiles E w).1 = inr status
    ∧ Sorted (λ a b, String.le (Name a) (Name b)) (st_Apps status)
    ∧ (localStatusFromFiles E w).2 =
        mkWorld (stateFile w) (stateTmp w) (adminLog w ++ reqs)
    ∧ Forall (λ req, readOnly req ∧ payload req = None) reqs.
Proof.
  intros E w.
  set (state := mkState 1 "unmanaged" true 80 443
                  {[ "x" := Scenario.app "x" 11000 100 ]}).
  set (status := mkStatus true "unmanaged" true 80 443 false 0
                   [Scenario.app "x" 11000 100]).
  assert (Hload : loadLocalState E w = (inr state, w)) by (by vm_compute).
  assert (Hok : (localStatusFromFiles E w).1 = inr status) by (by vm_compute).
  pose proof (status_lists_live_apps_sorted E w state Hload) as Hthm.
  cbv zeta in Hthm. destruct Hthm as (Hquiet & Hlist).
  destruct (Hlist status Hok) as (_ & Hsorted & _).
  destruct Hquiet as (reqs & Hw & Hreqs).
  { intros name app Hl. unfold state in Hl. cbn [Apps] in Hl.
    apply lookup_singleton_Some in Hl as [_ <-]. reflexivity. }
  exists status, reqs. split; [exact Hok|]. split; [exact Hsorted|].
  split; [exact Hw|exact Hreqs].
Defined.

(** ** Listen addresses *)

Lemma Itoa_notColon (n : Z) : allRunes notColon (Strings.Itoa n) = true.
Proof.
  assert (Hchar : ∀ d, (d < 10)%N → notColon (pretty_N_char d) = true).
  { intros d Hd.
    assert (d = 0 ∨ d = 1 ∨ d = 2 ∨ d = 3 ∨ d = 4 ∨ d = 5 ∨ d = 6 ∨ d = 7
            ∨ d = 8 ∨ d = 9)%N as Hcases by lia.
    repeat (destruct Hcases as [->|Hcases]; [reflexivity|]). by subst. }
  assert (Hpos : ∀ p : positive, allRunes notColon (pretty p) = true).
  { intros p. change (pretty p) with (pretty (N.pos p)).
    unfold pretty, pretty_N. case_decide; [done|].
    by apply allRunes_pretty_N_go. }
  unfold Strings.Itoa, pretty, pretty_Z. destruct n as [|p|p]; [done|apply Hpos|].
  change ("-" +:+ pretty p) with (String "-" (pretty p)). simpl. apply Hpos.
Qed.

(** The last piece of a split is what follows the last separator. *)
Lemma last_splitGo (cur host t : string) :
  allRunes notColon t = true →
  last (Strings.splitGo ":" cur (host +:+ String ":" t)) = Some t.
Proof.
  intros Ht. revert cur. induction host as [|c host IH]; intros cur.
  - change ("" +:+ String ":" t) with (String ":" t).
    cbn [Strings.splitGo Ascii.eqb Bool.eqb andb]. cbv iota.
    rewrite last_cons. rewrite <- (append_empty_r t) at 1.
    rewrite (splitGo_before notColon ":" "" t "" Ht eq_refl).
    cbn [Strings.splitGo last].
    change (String.rev_app t "") with (String.rev t).
    by rewrite rev_rev.
  - change (String c host +:+ String ":" t)
      with (String c (host +:+ String ":" t)).
    cbn [Strings.splitGo]. destruct (Ascii.eqb c ":").
    + rewrite last_cons. by rewrite IH.
    + apply IH.
Qed.

Lemma parseListenPort_address (host : string) (port : Z) :
  Strings.HasPrefix host ":" = false →
  Strings.minInt ≤ port ≤ Strings.maxInt →
  parseListenPort (host +:+ ":" +:+ Strings.Itoa port) = port.
Proof.
  intros Hhost Hport. destruct host as [|c host].
  { by apply parseListenPort_colon. }
  unfold parseListenPort.
  change (String c host +:+ ":" +:+ Strings.Itoa port)
    with (String c (host +:+ String ":" (Strings.Itoa port))).
  unfold Strings.HasPrefix in *. cbn [Strings.startsWith] in Hhost |- *.
  rewrite andb_true_r in Hhost |- *. rewrite Hhost.
  unfold Strings.Split.
  change (String c (host +:+ String ":" (Strings.Itoa port)))
    with (String c host +:+ String ":" (Strings.Itoa port)).
  rewrite last_splitGo by apply Itoa_notColon. by apply Atoi_Itoa.
Qed.

(** X17.  A listen address [host:port] is read as its port.  For a host
    part that does not begin with a colon (the empty one included, so
    [:8080], [127.0.0.1:8080] and [[::1]:8080] alike) and a port of the
    64-bit range, [parseListenPort] returns the port; a server whose first
    listen address it is has that port as [firstListenPort], and
    [hasListenPort] finds it. *)
Theorem listen_address_port (host : string) (port : Z) :
  Strings.HasPrefix host ":" = false →
  Strings.minInt ≤ port ≤ Strings.maxInt →
  let address := host +:+ ":" +:+ Strings.Itoa port in
  parseListenPort address = port
  ∧ ∀ server more,
      mapIndex server "listen" = Some (AArr (AStr address :: more)) →
      firstListenPort server = port ∧ hasListenPort server port = true.
Proof.
  intros Hhost Hport address.
  pose proof (parseListenPort_address host port Hhost Hport) as Hparse.
  fold address in Hparse. split; [exact Hparse|].
  intros server more Hlisten. unfold firstListenPort, hasListenPort.
  rewrite Hlisten. split; [exact Hparse|].
  cbn [anyListens]. by rewrite Hparse, Z.eqb_refl.
Qed.

Lemma listen_address_port_witness :
  parseListenPort "[::1]:8443" = 8443
  ∧ firstListenPort [("listen", AArr [AStr "[::1]:8443"; AStr ":80"])] = 8443.
Proof.
  assert (Hhost : Strings.HasPrefix "[::1]" ":" = false) by reflexivity.
  assert (Hport : Strings.minInt ≤ 8443 ≤ Strings.maxInt)
    by (unfold Strings.minInt, Strings.maxInt; lia).
  destruct (listen_address_port "[::1]" 8443 Hhost Hport) as [Hparse Hserver].
  split; [exact Hparse|].
  by destruct (Hserver [("listen", AArr [AStr "[::1]:8443"; AStr ":80"])]
                 [AStr ":80"] eq_refl).
Defined.
